(** * Flare worker: the batch dispatcher and the sentinel protocol

    A shallow embedding of [routes/execute-batch.ts] ([chunk], [executeItem],
    [handleExecuteBatch]) and of [routes/execute.ts] ([handleExecute]).

    Modelling conventions.
    - A JavaScript string is the list of its UTF-16 code units ([jsstring]).
    - A JavaScript number is modelled at its integer values, as [Z]. The cap
      of a batch, which is cut into rounds, is also modelled at every
      rational value ([chunk_number], [handleExecuteBatch_number]), with
      exact arithmetic, as the doubles have it for the small multiples of
      one half that the statements use; the integer model is proved to be
      the restriction of that one.
    - An awaited promise is the value it settles with ([Settled]): either it
      resolves or it rejects with a thrown value.
    - The sandbox service, the clock and [crypto.randomUUID] are external;
      they are oracles gathered in [Env], one per call of [executeItem] or
      [handleExecute], and in [World] for a whole batch request.
    - Calls issued on a sandbox stub are recorded in a trace ([Event]).
    - The [for] loop of [chunk] runs on fuel, because for a negative [size]
      it does not terminate. *)

From Stdlib Require Import ZArith NArith QArith Ascii String Lia.
From stdpp Require Import base numbers list gmap.

Local Open Scope Z_scope.

(** ** Strings *)

Definition jsstring : Type := list N.

(** The code units of a literal whose characters are all below U+0100. *)
Definition js (s : string) : jsstring :=
  List.map N_of_ascii (list_ascii_of_string s).

Definition dquote : jsstring := [34%N].
Definition newline : jsstring := [10%N].

(** [Array.prototype.join] on an array of strings. *)
Fixpoint join (sep : jsstring) (parts : list jsstring) : jsstring :=
  match parts with
  | [] => []
  | [p] => p
  | p :: rest => p ++ sep ++ join sep rest
  end.

(** [s.startsWith(pat)], used for a literal of a regular expression at the
    current position. *)
Fixpoint starts_with (pat s : jsstring) : bool :=
  match pat, s with
  | [], _ => true
  | _ :: _, [] => false
  | p :: pat', c :: s' => if N.eqb p c then starts_with pat' s' else false
  end.

(** [s.includes(pat)] *)
Fixpoint includes (s pat : jsstring) : bool :=
  if starts_with pat s then true
  else match s with
       | [] => false
       | _ :: s' => includes s' pat
       end.

(** The code units the regular-expression atom [.] refuses (no [s] flag):
    LF, CR, U+2028 and U+2029. *)
Definition is_line_terminator (c : N) : bool :=
  (N.eqb c 10 || N.eqb c 13 || N.eqb c 8232 || N.eqb c 8233)%bool.

(** No code unit of [s] stops the atom [.]. *)
Definition one_line (s : jsstring) : bool :=
  forallb (fun c => negb (is_line_terminator c)) s.

(** [s] is empty or its last code unit is a line terminator. *)
Definition ends_line (s : jsstring) : bool :=
  match last s with
  | Some c => is_line_terminator c
  | None => true
  end.

(** [s] is empty or its first code unit is a line terminator. *)
Definition starts_line (s : jsstring) : bool :=
  match s with
  | c :: _ => is_line_terminator c
  | [] => true
  end.

(** How many code units a greedy dot-star consumes at the head of [s]. *)
Fixpoint dot_run (s : jsstring) : nat :=
  match s with
  | [] => O
  | c :: s' => if is_line_terminator c then O else S (dot_run s')
  end.

(** Backtracking of the greedy group followed by the closing literal: the
    group holds [j] code units of [rest]; when the closing literal fails
    there, the group gives one code unit back. *)
Fixpoint backtrack (marker rest : jsstring) (j : nat) : option jsstring :=
  if starts_with marker (drop j rest) then Some (take j rest)
  else match j with
       | O => None
       | S j' => backtrack marker rest j'
       end.

(** One attempt, anchored at the head of [s], of the regular expression made
    of the literal [marker], a capture group around a greedy dot-star, and
    the literal [marker] again; the value is capture group 1. *)
Definition match_here (marker s : jsstring) : option jsstring :=
  if starts_with marker s then
    let rest := drop (length marker) s in
    backtrack marker rest (dot_run rest)
  else None.

(** [s.match(re)] for that regular expression: the leftmost position where
    an attempt succeeds; [Some g] stands for a match array whose element 1 is
    [g], [None] for [null]. *)
Fixpoint match_sentinel (marker s : jsstring) : option jsstring :=
  match match_here marker s with
  | Some g => Some g
  | None => match s with
            | [] => None
            | _ :: s' => match_sentinel marker s'
            end
  end.

Definition FLARE_ERROR : jsstring := Eval cbv in js "__FLARE_ERROR__".
Definition FLARE_RESULT : jsstring := Eval cbv in js "__FLARE_RESULT__".

(** ** Truthiness and defaults *)

(** [s || dflt] for an optional string: [undefined] and the empty string are
    falsy. *)
Definition truthy_str (s : option jsstring) : bool :=
  match s with
  | Some (_ :: _) => true
  | _ => false
  end.

(** An array, even an empty one, is truthy; [undefined] is not. *)
Definition truthy_arr {T} (a : option (list T)) : bool :=
  match a with
  | Some _ => true
  | None => false
  end.

(** [n || dflt] for an optional number: [undefined] and [0] are falsy. *)
Definition or_default (n : option Z) (dflt : Z) : Z :=
  match n with
  | Some v => if v =? 0 then dflt else v
  | None => dflt
  end.

(** ** [chunk] *)

(** [array.slice(start, end)] with JavaScript's treatment of negative and
    out-of-range indices. *)
Definition slice {T} (array : list T) (start end_ : Z) : list T :=
  let len := Z.of_nat (length array) in
  let k := if start <? 0 then Z.max (len + start) 0 else Z.min start len in
  let final := if end_ <? 0 then Z.max (len + end_) 0 else Z.min end_ len in
  take (Z.to_nat (final - k)) (drop (Z.to_nat k) array).

(** The loop [for (let i = 0; i < array.length; i += size)] entered with the
    current [i] and [chunks]; [None] when the fuel is used up. *)
Fixpoint chunk_loop {T} (fuel : nat) (array : list T) (size i : Z)
    (chunks : list (list T)) : option (list (list T)) :=
  match fuel with
  | O => None
  | S fuel' =>
      if i <? Z.of_nat (length array)
      then chunk_loop fuel' array size (i + size)
             (chunks ++ [slice array i (i + size)])
      else Some chunks
  end.

Definition chunk {T} (fuel : nat) (array : list T) (size : Z)
    : option (list (list T)) :=
  chunk_loop fuel array size 0 [].

(** ** Data model *)

(** A thrown value: an [Error] object carrying its message, or anything else
    (the handlers only ask [error instanceof Error]). *)
Inductive Thrown :=
  | ThrownError (message : jsstring)
  | ThrownOther.

(** What an awaited promise settles with. *)
Inductive Settled (A : Type) :=
  | Resolved (a : A)
  | Rejected (t : Thrown).
Arguments Resolved {A} a.
Arguments Rejected {A} t.

Module Logs.
Record t := mk { stdout : option (list jsstring);
                 stderr : option (list jsstring) }.
End Logs.

(** [interface SandboxResult]; its [results] field is never read. *)
Module SandboxResult.
Record t := mk { logs : option Logs.t; error : option jsstring }.
End SandboxResult.

(** [result.logs?.stdout?.join("\n") || ""] *)
Definition stdout_of (r : SandboxResult.t) : jsstring :=
  match SandboxResult.logs r with
  | Some l => match Logs.stdout l with
              | Some lines => join newline lines
              | None => []
              end
  | None => []
  end.

(** [result.logs?.stderr?.join("\n") || ""] *)
Definition stderr_of (r : SandboxResult.t) : jsstring :=
  match SandboxResult.logs r with
  | Some l => match Logs.stderr l with
              | Some lines => join newline lines
              | None => []
              end
  | None => []
  end.

(** [ExecuteResponse]: every field but [success] may be absent from the
    object literal. *)
Record ExecuteResponse := mkExecuteResponse {
  success : bool;
  result : option jsstring;
  error : option jsstring;
  stdout : option jsstring;
  stderr : option jsstring;
  execution_time_ms : option Z;
  sandbox_id : option jsstring;
  started_at : option jsstring;
  completed_at : option jsstring }.

Record ExecuteBatchResponse := mkExecuteBatchResponse {
  results : list ExecuteResponse;
  total_execution_time_ms : Z;
  batch_count : Z;
  max_containers : Z }.

Module ExecuteRequest.
Record t := mk {
  function_id : option jsstring;
  code : option jsstring;
  function_name : option jsstring;
  args : option jsstring;
  kwargs : option jsstring;
  timeout : option Z }.
End ExecuteRequest.

Module ExecuteBatchRequest.
Record t := mk {
  function_id : option jsstring;
  code : option jsstring;
  function_name : option jsstring;
  items : option (list jsstring);
  max_containers : option Z;
  timeout : option Z }.
End ExecuteBatchRequest.

Inductive Body :=
  | BodyExecute (r : ExecuteResponse)
  | BodyBatch (b : ExecuteBatchResponse).

(** [new Response(JSON.stringify(body), { status, headers })]; without a
    [status] the constructor gives 200. *)
Record Response := mkResponse { status : Z; body : Body }.

(** ** The outside world *)

(** The stub returned by [getSandbox], as one call of a handler sees it. *)
Record Sandbox := mkSandbox {
  createCodeContext : Settled unit;
  runCode : jsstring -> Z -> Settled SandboxResult.t;
  destroy : Settled unit }.

(** The oracles read by one call of [executeItem] or [handleExecute]. *)
Record Env := mkEnv {
  entry_iso : jsstring;          (* new Date().toISOString() on entry *)
  entry_now : Z;                 (* Date.now() on entry *)
  randomUUID : jsstring;         (* crypto.randomUUID() *)
  idFromName : jsstring -> jsstring;  (* env.Sandbox.idFromName(..).toString() *)
  getSandbox : jsstring -> Sandbox;
  exit_iso : jsstring;           (* new Date().toISOString() before return *)
  exit_now : Z }.                (* Date.now() before return *)

(** The oracles of one batch request. Within a round the calls of
    [executeItem] start in item order and rounds follow one another, so the
    [k]-th item of the request makes the [k]-th call. *)
Record World := mkWorld {
  item_env : nat -> Env;
  first_rejection : nat -> nat;  (* per round, which rejection settles first *)
  batch_entry_now : Z;
  batch_exit_now : Z }.

Inductive Event :=
  | EvCreateCodeContext (id : jsstring)
  | EvRunCode (id code : jsstring) (timeoutMs : Z)
  | EvDestroy (id : jsstring)
  | EvConsoleError (text : jsstring) (t : Thrown).

(** [error instanceof Error ? error.message : dflt] *)
Definition message_or (t : Thrown) (dflt : jsstring) : jsstring :=
  match t with
  | ThrownError m => m
  | ThrownOther => dflt
  end.

(** ** The scripts *)

(** The template literal of [executeItem]. *)
Definition executionCode_item (code functionName itemHex : jsstring)
    : jsstring :=
  join newline
    [ [];
      js "import cloudpickle";
      js "import sys";
      js "import traceback";
      [];
      js "# Load user code (define the function)";
      code;
      [];
      js "try:";
      js "    # Deserialize input item";
      js "    item = cloudpickle.loads(bytes.fromhex(" ++ dquote ++ itemHex
        ++ dquote ++ js "))";
      [];
      js "    # Execute function with single item";
      js "    result = " ++ functionName ++ js "(item)";
      [];
      js "    # Serialize and print result with markers";
      js "    result_hex = cloudpickle.dumps(result).hex()";
      js "    print(f" ++ dquote
        ++ js "__FLARE_RESULT__{result_hex}__FLARE_RESULT__" ++ dquote
        ++ js ")";
      [];
      js "except Exception as e:";
      js "    print(f" ++ dquote
        ++ js "__FLARE_ERROR__{str(e)}__FLARE_ERROR__" ++ dquote
        ++ js ", file=sys.stderr)";
      js "    traceback.print_exc()";
      [] ].

(** The template literal of [handleExecute]. *)
Definition executionCode_single (code functionName args kwargs : jsstring)
    : jsstring :=
  join newline
    [ [];
      js "import cloudpickle";
      js "import sys";
      js "import traceback";
      [];
      js "# Load user code (define the function)";
      code;
      [];
      js "try:";
      js "    # Deserialize inputs";
      js "    args = cloudpickle.loads(bytes.fromhex(" ++ dquote ++ args
        ++ dquote ++ js "))";
      js "    kwargs = cloudpickle.loads(bytes.fromhex(" ++ dquote ++ kwargs
        ++ dquote ++ js "))";
      [];
      js "    # Execute function";
      js "    result = " ++ functionName ++ js "(" ++ js "*args, **kwargs)";
      [];
      js "    # Serialize and print result with markers";
      js "    result_hex = cloudpickle.dumps(result).hex()";
      js "    print(f" ++ dquote
        ++ js "__FLARE_RESULT__{result_hex}__FLARE_RESULT__" ++ dquote
        ++ js ")";
      [];
      js "except Exception as e:";
      js "    print(f" ++ dquote
        ++ js "__FLARE_ERROR__{str(e)}__FLARE_ERROR__" ++ dquote
        ++ js ", file=sys.stderr)";
      js "    traceback.print_exc()";
      [] ].

(** ** [executeItem] *)

(** The value the promise of [executeItem] settles with, and the calls it
    made on its sandbox. Every return path reads the clock just before it
    builds its object; these readings are the oracles [exit_iso] and
    [exit_now], bound once here as [completedAt] and [executionTimeMs]. *)
Definition executeItem (env : Env) (functionId code functionName
    itemHex : jsstring) (timeoutSeconds : Z)
    : Settled ExecuteResponse * list Event :=
  let startedAt := entry_iso env in
  let startTime := entry_now env in
  let sandboxId := functionId ++ js "-" ++ take 8 (randomUUID env) in
  let sandbox := getSandbox env sandboxId in
  match createCodeContext sandbox with
  | Rejected t =>
      (* awaited before the [try]: the rejection leaves the function *)
      (Rejected t, [EvCreateCodeContext sandboxId])
  | Resolved _ =>
      let executionCode := executionCode_item code functionName itemHex in
      let timeoutMs := timeoutSeconds * 1000 in
      let completedAt := exit_iso env in
      let executionTimeMs := exit_now env - startTime in
      let returned :=
        match runCode sandbox executionCode timeoutMs with
        | Rejected err =>
            (* catch *)
            {| success := false; result := None;
               error := Some (message_or err (js "Execution failed"));
               stdout := None; stderr := None;
               execution_time_ms := Some executionTimeMs;
               sandbox_id := Some sandboxId;
               started_at := Some startedAt;
               completed_at := Some completedAt |}
        | Resolved res =>
            if truthy_str (SandboxResult.error res) then
              {| success := false; result := None;
                 error := SandboxResult.error res;
                 stdout := None; stderr := Some (stderr_of res);
                 execution_time_ms := Some executionTimeMs;
                 sandbox_id := Some sandboxId;
                 started_at := Some startedAt;
                 completed_at := Some completedAt |}
            else
              let stdout_ := stdout_of res in
              let stderr_ := stderr_of res in
              if includes stderr_ FLARE_ERROR then
                let errorMatch := match_sentinel FLARE_ERROR stderr_ in
                let errorMsg := match errorMatch with
                                | Some g => g
                                | None => js "Unknown error"
                                end in
                {| success := false; result := None;
                   error := Some errorMsg;
                   stdout := None; stderr := Some stderr_;
                   execution_time_ms := Some executionTimeMs;
                   sandbox_id := Some sandboxId;
                   started_at := Some startedAt;
                   completed_at := Some completedAt |}
              else
                match match_sentinel FLARE_RESULT stdout_ with
                | None =>
                    {| success := false; result := None;
                       error :=
                         Some (js "Failed to extract result from output");
                       stdout := Some stdout_; stderr := Some stderr_;
                       execution_time_ms := Some executionTimeMs;
                       sandbox_id := Some sandboxId;
                       started_at := Some startedAt;
                       completed_at := Some completedAt |}
                | Some g =>
                    {| success := true; result := Some g;
                       error := None;
                       stdout := Some stdout_; stderr := Some stderr_;
                       execution_time_ms := Some executionTimeMs;
                       sandbox_id := Some sandboxId;
                       started_at := Some startedAt;
                       completed_at := Some completedAt |}
                end
        end in
      (* finally *)
      let cleanup :=
        match destroy sandbox with
        | Resolved _ => [EvDestroy sandboxId]
        | Rejected err =>
            [EvDestroy sandboxId;
             EvConsoleError
               (js "Failed to destroy sandbox " ++ sandboxId ++ js ":") err]
        end in
      (Resolved returned,
       [EvCreateCodeContext sandboxId;
        EvRunCode sandboxId executionCode timeoutMs] ++ cleanup)
  end.

(** ** [handleExecute] *)

(** A failure body that carries only [success] and [error]. *)
Definition bare_failure (msg : jsstring) : ExecuteResponse :=
  {| success := false; result := None; error := Some msg;
     stdout := None; stderr := None; execution_time_ms := None;
     sandbox_id := None; started_at := None; completed_at := None |}.

(** [request] is [None] when [request.json()] rejects. *)
Definition handleExecute (env : Env) (request : option ExecuteRequest.t)
    : Response * list Event :=
  match request with
  | None =>
      ({| status := 400;
          body := BodyExecute
                    (bare_failure (js "Invalid JSON in request body")) |},
       [])
  | Some body_ =>
      if (negb (truthy_str (ExecuteRequest.function_id body_))
          || negb (truthy_str (ExecuteRequest.code body_))
          || negb (truthy_str (ExecuteRequest.function_name body_)))%bool
      then
        ({| status := 400;
            body := BodyExecute
                      (bare_failure
                         (js "Missing required fields: function_id, code, function_name")) |},
         [])
      else
        let function_id := default [] (ExecuteRequest.function_id body_) in
        let code := default [] (ExecuteRequest.code body_) in
        let function_name :=
          default [] (ExecuteRequest.function_name body_) in
        let caught (err : Thrown) :=
          {| status := 500;
             body := BodyExecute
                       (bare_failure (message_or err (js "Execution failed")))
          |} in
        let startedAt := entry_iso env in
        let startTime := entry_now env in
        let sandboxIdStr := idFromName env function_id in
        let sandbox := getSandbox env sandboxIdStr in
        match createCodeContext sandbox with
        | Rejected err => (caught err, [EvCreateCodeContext sandboxIdStr])
        | Resolved _ =>
            let executionCode :=
              executionCode_single code function_name
                (default [] (ExecuteRequest.args body_))
                (default [] (ExecuteRequest.kwargs body_)) in
            let timeoutMs :=
              or_default (ExecuteRequest.timeout body_) 300 * 1000 in
            let trace := [EvCreateCodeContext sandboxIdStr;
                          EvRunCode sandboxIdStr executionCode timeoutMs] in
            match runCode sandbox executionCode timeoutMs with
            | Rejected err => (caught err, trace)
            | Resolved res =>
                if truthy_str (SandboxResult.error res) then
                  ({| status := 500;
                      body := BodyExecute
                        {| success := false; result := None;
                           error := SandboxResult.error res;
                           stdout := None; stderr := Some (stderr_of res);
                           execution_time_ms := None; sandbox_id := None;
                           started_at := None; completed_at := None |} |},
                   trace)
                else
                  let stdout_ := stdout_of res in
                  let stderr_ := stderr_of res in
                  if includes stderr_ FLARE_ERROR then
                    let errorMatch := match_sentinel FLARE_ERROR stderr_ in
                    let errorMsg := match errorMatch with
                                    | Some g => g
                                    | None => js "Unknown error"
                                    end in
                    ({| status := 500;
                        body := BodyExecute
                          {| success := false; result := None;
                             error := Some errorMsg;
                             stdout := None; stderr := Some stderr_;
                             execution_time_ms := None; sandbox_id := None;
                             started_at := None; completed_at := None |} |},
                     trace)
                  else
                    match match_sentinel FLARE_RESULT stdout_ with
                    | None =>
                        ({| status := 500;
                            body := BodyExecute
                              {| success := false; result := None;
                                 error :=
                                   Some (js "Failed to extract result from output");
                                 stdout := Some stdout_;
                                 stderr := Some stderr_;
                                 execution_time_ms := None;
                                 sandbox_id := None;
                                 started_at := None;
                                 completed_at := None |} |},
                         trace)
                    | Some g =>
                        ({| status := 200;
                            body := BodyExecute
                              {| success := true; result := Some g;
                                 error := None;
                                 stdout := Some stdout_;
                                 stderr := Some stderr_;
                                 execution_time_ms :=
                                   Some (exit_now env - startTime);
                                 sandbox_id := Some sandboxIdStr;
                                 started_at := Some startedAt;
                                 completed_at := Some (exit_iso env) |} |},
                         trace)
                    end
            end
        end
  end.

(** ** [handleExecuteBatch] *)

Fixpoint rejections {A} (ps : list (Settled A)) : list Thrown :=
  match ps with
  | [] => []
  | Resolved _ :: ps' => rejections ps'
  | Rejected t :: ps' => t :: rejections ps'
  end.

Fixpoint resolutions {A} (ps : list (Settled A)) : list A :=
  match ps with
  | [] => []
  | Resolved a :: ps' => a :: resolutions ps'
  | Rejected _ :: ps' => resolutions ps'
  end.

(** [await Promise.all(ps)]: the values in the order of [ps] when all
    resolve; otherwise the rejection that settles first, chosen by [pick]
    among the rejections. *)
Definition promise_all {A} (pick : nat) (ps : list (Settled A))
    : Settled (list A) :=
  match rejections ps with
  | [] => Resolved (resolutions ps)
  | t :: ts => Rejected (nth pick (t :: ts) t)
  end.

(** The loop [for (const batch of batches)], entered at round [round] with
    [k] calls of [executeItem] made so far. The second component gathers the
    trace of every call made, in call order. *)
Fixpoint run_batches (w : World) (function_id code function_name : jsstring)
    (timeout : Z) (batches : list (list jsstring)) (round k : nat)
    (allResults : list ExecuteResponse) (traces : list (list Event))
    : Settled (list ExecuteResponse) * list (list Event) :=
  match batches with
  | [] => (Resolved allResults, traces)
  | batch :: rest =>
      let batchTasks :=
        imap (fun j itemHex =>
                executeItem (item_env w (k + j)%nat) function_id code
                  function_name itemHex timeout) batch in
      let traces' := traces ++ List.map snd batchTasks in
      match promise_all (first_rejection w round) (List.map fst batchTasks) with
      | Rejected err => (Rejected err, traces')
      | Resolved batchResults =>
          run_batches w function_id code function_name timeout rest
            (S round) (k + length batch)%nat (allResults ++ batchResults)
            traces'
      end
  end.

(** [request] is [None] when [request.json()] rejects. The value is [None]
    when [fuel] does not suffice for the loop of [chunk]. The second
    component holds the sandbox calls of every [executeItem] started; what
    the handler itself writes to the console is not recorded. *)
Definition handleExecuteBatch (fuel : nat) (w : World)
    (request : option ExecuteBatchRequest.t)
    : option (Response * list (list Event)) :=
  match request with
  | None =>
      Some ({| status := 400;
               body := BodyExecute
                         (bare_failure (js "Invalid JSON in request body")) |},
            [])
  | Some body_ =>
      if (negb (truthy_str (ExecuteBatchRequest.function_id body_))
          || negb (truthy_str (ExecuteBatchRequest.code body_))
          || negb (truthy_str (ExecuteBatchRequest.function_name body_))
          || negb (truthy_arr (ExecuteBatchRequest.items body_)))%bool
      then
        Some ({| status := 400;
                 body := BodyExecute
                   (bare_failure
                      (js "Missing required fields: function_id, code, function_name, items")) |},
              [])
      else
        let function_id :=
          default [] (ExecuteBatchRequest.function_id body_) in
        let code := default [] (ExecuteBatchRequest.code body_) in
        let function_name :=
          default [] (ExecuteBatchRequest.function_name body_) in
        let items := default [] (ExecuteBatchRequest.items body_) in
        let startTime := batch_entry_now w in
        let maxContainers :=
          or_default (ExecuteBatchRequest.max_containers body_) 10 in
        let timeout := or_default (ExecuteBatchRequest.timeout body_) 300 in
        match chunk fuel items maxContainers with
        | None => None
        | Some batches =>
            match run_batches w function_id code function_name timeout
                    batches 0 0 [] [] with
            | (Resolved allResults, traces) =>
                let totalExecutionTimeMs := batch_exit_now w - startTime in
                Some ({| status := 200;
                         body := BodyBatch
                           {| results := allResults;
                              total_execution_time_ms := totalExecutionTimeMs;
                              batch_count := Z.of_nat (length batches);
                              max_containers := maxContainers |} |},
                      traces)
            | (Rejected err, traces) =>
                (* the outer catch *)
                Some ({| status := 500;
                         body := BodyExecute
                           (bare_failure
                              (message_or err (js "Batch execution failed")))
                      |},
                      traces)
            end
        end
  end.

(** ** A cap that is any number *)

(** [max_containers] comes from JSON without any check, so it may be a
    number that is not an integer. The definitions below take [chunk] and
    [handleExecuteBatch] again with the cap as a rational, and the lemmas
    on them show that on integers they are the definitions above. The
    sums of the loop are exact here; those of the source are sums of
    doubles, which are exact for the caps of the statements: the integers
    that a double holds, and the halves. An infinite cap, which JSON text
    such as 1e999 gives, is not a rational and stays outside. *)

(** What [slice] makes of a number: its integer part, towards zero. *)
Definition to_integer (q : Q) : Z := Z.quot (Qnum q) (Zpos (Qden q)).

(** [x < y] on numbers. *)
Definition Qltb (x y : Q) : bool :=
  (Qnum x * Zpos (Qden y) <? Qnum y * Zpos (Qden x))%Z.

(** [n || dflt] for an optional number that need not be an integer. *)
Definition or_default_number (n : option Q) (dflt : Q) : Q :=
  match n with
  | Some v => if Qeq_bool v 0 then dflt else v
  | None => dflt
  end.

(** The loop of [chunk] for any [size]. *)
Fixpoint chunk_loop_number {T} (fuel : nat) (array : list T) (size i : Q)
    (chunks : list (list T)) : option (list (list T)) :=
  match fuel with
  | O => None
  | S fuel' =>
      if Qltb i (inject_Z (Z.of_nat (length array)))
      then chunk_loop_number fuel' array size (i + size)%Q
             (chunks ++ [slice array (to_integer i) (to_integer (i + size)%Q)])
      else Some chunks
  end.

Definition chunk_number {T} (fuel : nat) (array : list T) (size : Q)
    : option (list (list T)) :=
  chunk_loop_number fuel array size 0%Q [].

Module NumberBatchRequest.
Record t := mk {
  function_id : option jsstring;
  code : option jsstring;
  function_name : option jsstring;
  items : option (list jsstring);
  max_containers : option Q;
  timeout : option Z }.
End NumberBatchRequest.

Record NumberBatchResponse := mkNumberBatchResponse {
  n_results : list ExecuteResponse;
  n_total_execution_time_ms : Z;
  n_batch_count : Z;
  n_max_containers : Q }.

Inductive NumberBody :=
  | NumberBodyExecute (r : ExecuteResponse)
  | NumberBodyBatch (b : NumberBatchResponse).

Record NumberResponse := mkNumberResponse {
  n_status : Z;
  n_body : NumberBody }.

(** [handleExecuteBatch] with [max_containers] as any number. *)
Definition handleExecuteBatch_number (fuel : nat) (w : World)
    (request : option NumberBatchRequest.t)
    : option (NumberResponse * list (list Event)) :=
  match request with
  | None =>
      Some ({| n_status := 400;
               n_body := NumberBodyExecute
                           (bare_failure (js "Invalid JSON in request body"))
            |}, [])
  | Some body_ =>
      if (negb (truthy_str (NumberBatchRequest.function_id body_))
          || negb (truthy_str (NumberBatchRequest.code body_))
          || negb (truthy_str (NumberBatchRequest.function_name body_))
          || negb (truthy_arr (NumberBatchRequest.items body_)))%bool
      then
        Some ({| n_status := 400;
                 n_body := NumberBodyExecute
                   (bare_failure
                      (js "Missing required fields: function_id, code, function_name, items")) |},
              [])
      else
        let function_id :=
          default [] (NumberBatchRequest.function_id body_) in
        let code := default [] (NumberBatchRequest.code body_) in
        let function_name :=
          default [] (NumberBatchRequest.function_name body_) in
        let items := default [] (NumberBatchRequest.items body_) in
        let startTime := batch_entry_now w in
        let maxContainers :=
          or_default_number (NumberBatchRequest.max_containers body_) 10%Q in
        let timeout := or_default (NumberBatchRequest.timeout body_) 300 in
        match chunk_number fuel items maxContainers with
        | None => None
        | Some batches =>
            match run_batches w function_id code function_name timeout
                    batches 0 0 [] [] with
            | (Resolved allResults, traces) =>
                let totalExecutionTimeMs := batch_exit_now w - startTime in
                Some ({| n_status := 200;
                         n_body := NumberBodyBatch
                           {| n_results := allResults;
                              n_total_execution_time_ms :=
                                totalExecutionTimeMs;
                              n_batch_count := Z.of_nat (length batches);
                              n_max_containers := maxContainers |} |},
                      traces)
            | (Rejected err, traces) =>
                Some ({| n_status := 500;
                         n_body := NumberBodyExecute
                           (bare_failure
                              (message_or err (js "Batch execution failed")))
                      |},
                      traces)
            end
        end
  end.

(** A response of the integer model, read as a response of this one whose
    cap is [q]. *)
Definition number_response (q : Q) (r : Response) : NumberResponse :=
  {| n_status := status r;
     n_body :=
       match body r with
       | BodyExecute o => NumberBodyExecute o
       | BodyBatch b =>
           NumberBodyBatch
             {| n_results := results b;
                n_total_execution_time_ms := total_execution_time_ms b;
                n_batch_count := batch_count b;
                n_max_containers := q |}
       end |}.

(** Five items and a cap of two and a half. *)
Definition req_fractional : NumberBatchRequest.t :=
  NumberBatchRequest.mk (Some (js "fn"))
    (Some (js "def double(x): return 2 * x")) (Some (js "double"))
    (Some [js "8001"; js "8002"; js "8003"; js "8004"; js "8005"])
    (Some (5 # 2)%Q) None.

(** ** Vocabulary of the statements *)

(** The context creation of [executeItem] resolves in [env]. *)
Definition context_ready (env : Env) (functionId : jsstring) : bool :=
  match createCodeContext
          (getSandbox env (functionId ++ js "-" ++ take 8 (randomUUID env)))
  with
  | Resolved _ => true
  | Rejected _ => false
  end.

(** The calls of [executeItem] a batch makes for [items], the first of them
    being call number [k]. *)
Definition run_all (w : World) (function_id code function_name : jsstring)
    (timeout : Z) (k : nat) (items : list jsstring)
    : list (Settled ExecuteResponse * list Event) :=
  imap (fun j itemHex =>
          executeItem (item_env w (k + j)%nat) function_id code function_name
            itemHex timeout) items.

(** A request body in which the four required fields are present. *)
Definition batch_request (function_id code function_name : jsstring)
    (items : list jsstring) (max_containers timeout : option Z)
    : ExecuteBatchRequest.t :=
  ExecuteBatchRequest.mk (Some function_id) (Some code) (Some function_name)
    (Some items) max_containers timeout.

Definition is_destroy (e : Event) : bool :=
  match e with
  | EvDestroy _ => true
  | _ => false
  end.

(** Number of [sandbox.destroy()] calls in a trace. *)
Definition destroy_calls (trace : list Event) : nat :=
  length (filter (fun e => is_destroy e = true) trace).

Definition is_hex (c : N) : bool :=
  ((48 <=? c) && (c <=? 57) || (97 <=? c) && (c <=? 102))%N%bool.

(** The shape of a version 4 UUID in lower case: 8-4-4-4-12 hexadecimal
    digits, version digit 4, variant digit 8, 9, a or b. *)
Definition is_uuid_v4 (u : jsstring) : bool :=
  (Nat.eqb (length u) 36
   && forallb (fun i =>
                 match u !! i with
                 | Some c =>
                     if (Nat.eqb i 8 || Nat.eqb i 13 || Nat.eqb i 18
                         || Nat.eqb i 23)%bool then N.eqb c 45
                     else if Nat.eqb i 14 then N.eqb c 52
                     else if Nat.eqb i 19 then
                       (N.eqb c 56 || N.eqb c 57 || N.eqb c 97 || N.eqb c 98)
                     else is_hex c
                 | None => false
                 end) (seq 0 36))%bool.

(** The same environment, except that [sandbox.destroy()] settles with
    [d]. *)
Definition with_destroy (env : Env) (d : Settled unit) : Env :=
  {| entry_iso := entry_iso env;
     entry_now := entry_now env;
     randomUUID := randomUUID env;
     idFromName := idFromName env;
     getSandbox := fun id =>
       {| createCodeContext := createCodeContext (getSandbox env id);
          runCode := runCode (getSandbox env id);
          destroy := d |};
     exit_iso := exit_iso env;
     exit_now := exit_now env |}.

(** The message reported when stderr holds the error token. *)
Definition error_message (stderr_ : jsstring) : jsstring :=
  match match_sentinel FLARE_ERROR stderr_ with
  | Some g => g
  | None => js "Unknown error"
  end.

(** The precedence of decoding, in the words of the specification: the
    outcome [o] decodes the runtime result [res]. *)
Definition decoded_by_precedence (res : SandboxResult.t)
    (o : ExecuteResponse) : Prop :=
  (truthy_str (SandboxResult.error res) = true ->
   success o = false /\ error o = SandboxResult.error res)
  /\ (truthy_str (SandboxResult.error res) = false ->
      includes (stderr_of res) FLARE_ERROR = true ->
      success o = false
      /\ error o = Some (error_message (stderr_of res))
      /\ stderr o = Some (stderr_of res))
  /\ (truthy_str (SandboxResult.error res) = false ->
      includes (stderr_of res) FLARE_ERROR = false ->
      match_sentinel FLARE_RESULT (stdout_of res) = None ->
      success o = false
      /\ error o = Some (js "Failed to extract result from output")
      /\ stdout o = Some (stdout_of res)
      /\ stderr o = Some (stderr_of res))
  /\ (forall h,
      truthy_str (SandboxResult.error res) = false ->
      includes (stderr_of res) FLARE_ERROR = false ->
      match_sentinel FLARE_RESULT (stdout_of res) = Some h ->
      success o = true /\ result o = Some h /\ error o = None).

(** The words of the decoding rule, said without the functions the
    handlers call. [s] holds [pat] somewhere: *)
Definition contains (s pat : jsstring) : Prop :=
  exists pre post, s = pre ++ pat ++ post.

(** [s] reads [pre], the marker, [g], the marker, [post], where [g] stays
    on one line: a well-formed sentinel around [g]. *)
Definition sentinel_at (marker s pre g post : jsstring) : Prop :=
  s = pre ++ marker ++ g ++ marker ++ post /\ one_line g = true.


(** [g] is the text between the markers of the first sentinel of [s]: of
    all well-formed sentinels of [s], the one that opens earliest and, among
    those, closes latest. *)
Definition first_sentinel (marker s g : jsstring) : Prop :=
  exists pre post,
    sentinel_at marker s pre g post
    /\ forall pre' g' post',
         sentinel_at marker s pre' g' post' ->
         (length pre <= length pre')%nat
         /\ (length pre' = length pre -> (length g' <= length g)%nat).

(** The runtime reported no error: [result.error] is absent or empty. *)
Definition runtime_silent (res : SandboxResult.t) : Prop :=
  SandboxResult.error res = None \/ SandboxResult.error res = Some [].


(** A request body for [handleExecute] with the required fields present. *)
Definition single_request (function_id code function_name : jsstring)
    (args kwargs : option jsstring) (timeout : option Z)
    : ExecuteRequest.t :=
  ExecuteRequest.mk (Some function_id) (Some code) (Some function_name)
    args kwargs timeout.

(** [ceil(n / c)] on integers, for [c >= 1]. *)
Definition ceil_div (n c : Z) : Z := (n + c - 1) / c.

(** Rounds still to be cut when the loop of [chunk] is entered at [i]. *)
Definition rounds_from {T} (array : list T) (size i : Z) : Z :=
  if i <? Z.of_nat (length array)
  then ceil_div (Z.of_nat (length array) - i) size
  else 0.

(** ** Scenarios *)

Definition logged (out err : list jsstring) : SandboxResult.t :=
  SandboxResult.mk (Some (Logs.mk (Some out) (Some err))) None.

Definition sandbox_running (run : Settled SandboxResult.t) : Sandbox :=
  {| createCodeContext := Resolved tt;
     runCode := fun _ _ => run;
     destroy := Resolved tt |}.

Definition sandbox_no_context : Sandbox :=
  {| createCodeContext := Rejected (ThrownError (js "container failed to start"));
     runCode := fun _ _ => Resolved (logged [] []);
     destroy := Resolved tt |}.

Definition env_with (uuid : string) (sb : Sandbox) : Env :=
  {| entry_iso := js "2025-01-01T00:00:00.000Z";
     entry_now := 1000;
     randomUUID := js uuid;
     idFromName := fun name => js "id-" ++ name;
     getSandbox := fun _ => sb;
     exit_iso := js "2025-01-01T00:00:01.500Z";
     exit_now := 2500 |}.

Definition world_of (envs : nat -> Env) : World :=
  {| item_env := envs;
     first_rejection := fun _ => O;
     batch_entry_now := 900;
     batch_exit_now := 4000 |}.

Definition run_success : Settled SandboxResult.t :=
  Resolved (logged [js "__FLARE_RESULT__8004__FLARE_RESULT__"] []).

Definition run_user_error : Settled SandboxResult.t :=
  Resolved (logged [] [js "__FLARE_ERROR__bad__FLARE_ERROR__";
                       js "Traceback (most recent call last):"]).

Definition run_runtime_error : Settled SandboxResult.t :=
  Resolved (SandboxResult.mk None (Some (js "Execution timed out"))).

Definition run_no_sentinel : Settled SandboxResult.t :=
  Resolved (logged [js "hello"] []).

Definition run_throws : Settled SandboxResult.t :=
  Rejected (ThrownError (js "network lost")).

(** Five items: one succeeds, the others fail each in its own way. *)
Definition w_mixed : World :=
  world_of (fun k =>
    match k with
    | 0%nat => env_with "0a0a0a0a-0000-4000-8000-000000000000" (sandbox_running run_success)
    | 1%nat => env_with "1b1b1b1b-1111-4111-8111-111111111111" (sandbox_running run_user_error)
    | 2%nat => env_with "2c2c2c2c-2222-4222-8222-222222222222" (sandbox_running run_runtime_error)
    | 3%nat => env_with "3d3d3d3d-3333-4333-8333-333333333333" (sandbox_running run_no_sentinel)
    | 4%nat => env_with "4e4e4e4e-4444-4444-8444-444444444444" (sandbox_running run_throws)
    | _ => env_with "5f5f5f5f-5555-4555-8555-555555555555" (sandbox_running run_success)
    end).

Definition items5 : list jsstring :=
  [js "8001"; js "8002"; js "8003"; js "8004"; js "8005"].

Definition req_mixed : ExecuteBatchRequest.t :=
  batch_request (js "fn") (js "def double(x): return 2 * x") (js "double")
    items5 (Some 2) None.

(** The second of three items cannot get its context. *)
Definition w_no_context : World :=
  world_of (fun k =>
    match k with
    | 1%nat => env_with "1b1b1b1b-1111-4111-8111-111111111111" sandbox_no_context
    | _ => env_with "0a0a0a0a-0000-4000-8000-000000000000" (sandbox_running run_success)
    end).

Definition items3 : list jsstring := [js "8001"; js "8002"; js "8003"].

Definition req_three (mc : option Z) : ExecuteBatchRequest.t :=
  batch_request (js "fn") (js "def double(x): return 2 * x") (js "double")
    items3 mc None.

Definition req_single : ExecuteRequest.t :=
  single_request (js "fn") (js "def double(x): return 2 * x") (js "double")
    (Some (js "8001")) (Some (js "8002")) None.

(** stdout holds a result sentinel while stderr holds an error sentinel. *)
Definition res_both : SandboxResult.t :=
  logged [js "__FLARE_RESULT__8004__FLARE_RESULT__"]
         [js "__FLARE_ERROR__bad__FLARE_ERROR__"].

(** The runtime reports an error although both sentinels were printed. *)
Definition res_error_and_both : SandboxResult.t :=
  SandboxResult.mk
    (Some (Logs.mk (Some [js "__FLARE_RESULT__8004__FLARE_RESULT__"])
                   (Some [js "__FLARE_ERROR__bad__FLARE_ERROR__"])))
    (Some (js "Execution timed out")).

(** One stderr line with two sentinel pairs. *)
Definition res_two_pairs : SandboxResult.t :=
  logged []
    [js "__FLARE_ERROR__a__FLARE_ERROR__ then __FLARE_ERROR__b__FLARE_ERROR__";
     js "Traceback (most recent call last):"].

(** The message of the exception spans two lines. *)
Definition res_split : SandboxResult.t :=
  logged []
    [js "__FLARE_ERROR__first line"; js "second line__FLARE_ERROR__"].

Definition env_res (res : SandboxResult.t) : Env :=
  env_with "0a0a0a0a-0000-4000-8000-000000000000"
    (sandbox_running (Resolved res)).

(** Two draws of [crypto.randomUUID] that differ but agree on their first
    eight characters, and a third one. *)
Definition w_same_prefix : World :=
  world_of (fun k =>
    match k with
    | 0%nat => env_with "deadbeef-0000-4000-8000-000000000001" (sandbox_running run_success)
    | 1%nat => env_with "deadbeef-1111-4111-9111-111111111112" (sandbox_running run_success)
    | _ => env_with "0a0a0a0a-0000-4000-8000-000000000000" (sandbox_running run_success)
    end).

(** ** The handlers on every body *)

(** What [request.json()] settles with: a rejection (the text is not JSON),
    the value [null], or a value whose properties can be read (an object;
    for a number, a string, a boolean or an array the fields the handlers
    read are all absent). *)
Inductive JsonBody (A : Type) :=
  | JsonInvalid
  | JsonNull
  | JsonObject (b : A).
Arguments JsonInvalid {A}.
Arguments JsonNull {A}.
Arguments JsonObject {A} b.

(** The message of the [TypeError] that reading [function_id] from [null]
    throws in the V8 engine, on which the worker runs. *)
Definition null_function_id : jsstring :=
  js "Cannot read properties of null (reading 'function_id')".

(** [handleExecute] on every body. The test of the required fields stands
    before the [try]: on [null] its first read, [body.function_id], throws,
    and the promise of the handler is rejected. *)
Definition handleExecute_json (env : Env)
    (parsed : JsonBody ExecuteRequest.t) : Settled (Response * list Event) :=
  match parsed with
  | JsonInvalid => Resolved (handleExecute env None)
  | JsonNull => Rejected (ThrownError null_function_id)
  | JsonObject b => Resolved (handleExecute env (Some b))
  end.

(** [handleExecuteBatch] on every body, in the same way. *)
Definition handleExecuteBatch_json (fuel : nat) (w : World)
    (parsed : JsonBody ExecuteBatchRequest.t)
    : option (Settled (Response * list (list Event))) :=
  match parsed with
  | JsonInvalid => option_map Resolved (handleExecuteBatch fuel w None)
  | JsonNull => Some (Rejected (ThrownError null_function_id))
  | JsonObject b => option_map Resolved (handleExecuteBatch fuel w (Some b))
  end.

(** ** [auth.ts] *)

(** [a === b] on two strings. *)
Fixpoint jsstring_eqb (a b : jsstring) : bool :=
  match a, b with
  | [], [] => true
  | x :: a', y :: b' => if N.eqb x y then jsstring_eqb a' b' else false
  | _, _ => false
  end.

(** [a === b] where either side may be [undefined] (or [null], which the
    callers never mix with [undefined]). *)
Definition strict_eq (a b : option jsstring) : bool :=
  match a, b with
  | Some x, Some y => jsstring_eqb x y
  | None, None => true
  | _, _ => false
  end.

(** The bindings of the worker: the secret [env.API_KEY], which is absent
    when it was never configured, and the oracles that the two routes read
    through [env.Sandbox]. *)
Record WorkerEnv := mkWorkerEnv {
  API_KEY : option jsstring;
  execute_env : Env;
  batch_world : World }.

Definition validateApiKey (apiKey : option jsstring) (env : WorkerEnv)
    : bool :=
  if negb (truthy_str apiKey) then false
  else strict_eq apiKey (API_KEY env).

(** ** [index.ts] *)

(** [s.replace(pat, rep)] with a string pattern: the first occurrence only.
    [rep] is taken literally, as it is for a replacement without dollar
    signs. *)
Fixpoint replace_first (pat rep s : jsstring) : jsstring :=
  if starts_with pat s then rep ++ drop (length pat) s
  else match s with
       | [] => []
       | c :: s' => c :: replace_first pat rep s'
       end.

(** Header names are case-insensitive; a [Headers] object keeps them in
    lower case. *)
Definition lower (name : jsstring) : jsstring :=
  List.map (fun c => if ((65 <=? c) && (c <=? 90))%N%bool then (c + 32)%N
                     else c) name.

Abbreviation Headers := (gmap (list N) (list N)).

Definition headers_set (name value : jsstring) (h : Headers) : Headers :=
  <[lower name := value]> h.

Definition headers_get (h : Headers) (name : jsstring) : option jsstring :=
  h !! lower name.

(** A [Headers] object filled from the entries of an object literal whose
    names are distinct, or updated with them by [set]. *)
Definition headers_set_all (entries : list (jsstring * jsstring))
    (h : Headers) : Headers :=
  foldl (fun acc kv => headers_set (fst kv) (snd kv) acc) h entries.

Definition corsHeaders : list (jsstring * jsstring) :=
  [ (js "Access-Control-Allow-Origin", js "*");
    (js "Access-Control-Allow-Methods", js "POST, GET, OPTIONS");
    (js "Access-Control-Allow-Headers", js "Content-Type, Authorization") ].

Definition contentTypeJson : jsstring * jsstring :=
  (js "Content-Type", js "application/json").

(** The headers of a response of [handleExecute] or [handleExecuteBatch]:
    each [new Response] there is given exactly this one. *)
Definition handler_headers : Headers :=
  headers_set_all [contentTypeJson] ∅.

(** What [fetch] reads of a request: the method, [new URL(request.url)
    .pathname], [request.headers.get("Authorization")], and what
    [request.json()] settles with: [json_null] says that it is [null];
    otherwise the two fields below give the body as either route reads it
    ([None] when the text is not JSON). *)
Record WorkerRequest := mkWorkerRequest {
  method : jsstring;
  pathname : jsstring;
  authorization : option jsstring;
  json_null : bool;
  json_execute : option ExecuteRequest.t;
  json_batch : option ExecuteBatchRequest.t }.

Definition parsed_execute (request : WorkerRequest)
    : JsonBody ExecuteRequest.t :=
  if json_null request then JsonNull
  else match json_execute request with
       | Some b => JsonObject b
       | None => JsonInvalid
       end.

Definition parsed_batch (request : WorkerRequest)
    : JsonBody ExecuteBatchRequest.t :=
  if json_null request then JsonNull
  else match json_batch request with
       | Some b => JsonObject b
       | None => JsonInvalid
       end.

Inductive WorkerBody :=
  | BodyNull                   (* new Response(null, ..) *)
  | BodyHealth                 (* JSON.stringify({ status: "ok" }) *)
  | BodyJson (b : Body).

Record WorkerResponse := mkWorkerResponse {
  w_status : Z;
  w_headers : Headers;
  w_body : WorkerBody }.

(** The [fetch] handler. The second component holds the sandbox calls made,
    one trace per call of [handleExecute] or [executeItem]; a handler that
    rejects has made none, and what [fetch] itself writes to the console in
    its [catch] is not recorded. The value is [None] when the fuel does not
    suffice for [handleExecuteBatch]. *)
Definition fetch (fuel : nat) (env : WorkerEnv) (request : WorkerRequest)
    : option (WorkerResponse * list (list Event)) :=
  if jsstring_eqb (method request) (js "OPTIONS") then
    Some ({| w_status := 200;
             w_headers := headers_set_all corsHeaders ∅;
             w_body := BodyNull |}, [])
  else if (jsstring_eqb (pathname request) (js "/health")
           && jsstring_eqb (method request) (js "GET"))%bool then
    Some ({| w_status := 200;
             w_headers := headers_set_all (corsHeaders ++ [contentTypeJson]) ∅;
             w_body := BodyHealth |}, [])
  else
    let apiKey :=
      option_map (replace_first (js "Bearer ") []) (authorization request) in
    if negb (validateApiKey apiKey env) then
      Some ({| w_status := 401;
               w_headers :=
                 headers_set_all (corsHeaders ++ [contentTypeJson]) ∅;
               w_body := BodyJson
                           (BodyExecute (bare_failure (js "Unauthorized"))) |},
            [])
    else
      (* try *)
      let routed :=
        if (jsstring_eqb (pathname request) (js "/execute")
            && jsstring_eqb (method request) (js "POST"))%bool then
          match handleExecute_json (execute_env env)
                  (parsed_execute request) with
          | Resolved (response, trace) =>
              Some (Resolved (response, handler_headers, [trace]))
          | Rejected err => Some (Rejected err)
          end
        else if (jsstring_eqb (pathname request) (js "/execute-batch")
                 && jsstring_eqb (method request) (js "POST"))%bool then
          match handleExecuteBatch_json fuel (batch_world env)
                  (parsed_batch request) with
          | Some (Resolved (response, traces)) =>
              Some (Resolved (response, handler_headers, traces))
          | Some (Rejected err) => Some (Rejected err)
          | None => None
          end
        else
          Some (Resolved
                  ({| status := 404;
                      body := BodyExecute (bare_failure (js "Not Found")) |},
                   headers_set_all [contentTypeJson] ∅, []))
      in
      match routed with
      | Some (Resolved (response, response_headers, traces)) =>
          let headers := headers_set_all corsHeaders response_headers in
          Some ({| w_status := status response;
                   w_headers := headers;
                   w_body := BodyJson (body response) |}, traces)
      | Some (Rejected err) =>
          (* catch *)
          Some ({| w_status := 500;
                   w_headers :=
                     headers_set_all (corsHeaders ++ [contentTypeJson]) ∅;
                   w_body :=
                     BodyJson
                       (BodyExecute
                          (bare_failure
                             (message_or err (js "Internal Server Error"))))
                |}, [])
      | None => None
      end.

(** ** Scenarios for the worker *)

Definition worker_env (key : string) : WorkerEnv :=
  {| API_KEY := Some (js key);
     execute_env := env_res res_both;
     batch_world := w_mixed |}.

Definition request_to (m path auth : string) : WorkerRequest :=
  {| method := js m;
     pathname := js path;
     authorization := Some (js auth);
     json_null := false;
     json_execute := Some req_single;
     json_batch := Some req_mixed |}.

(** A sandbox whose [destroy] rejects. *)
Definition sandbox_sticky (run : Settled SandboxResult.t) : Sandbox :=
  {| createCodeContext := Resolved tt;
     runCode := fun _ _ => run;
     destroy := Rejected (ThrownError (js "destroy timed out")) |}.

(** The result line sits between two other lines of stdout. *)
Definition res_result_line : SandboxResult.t :=
  logged [js "starting"; js "__FLARE_RESULT__8004__FLARE_RESULT__";
          js "done"] [js "a warning"].

(** An exception whose message holds the marker itself. *)
Definition res_marker_in_message : SandboxResult.t :=
  logged [] [js "__FLARE_ERROR__tag __FLARE_ERROR__ is reserved__FLARE_ERROR__";
             js "Traceback (most recent call last):"].

(** The requests [fetch] answers before it looks at the credential. *)
Definition is_public (request : WorkerRequest) : bool :=
  (jsstring_eqb (method request) (js "OPTIONS")
   || jsstring_eqb (pathname request) (js "/health")
      && jsstring_eqb (method request) (js "GET"))%bool.

(** The two routes behind the credential. *)
Definition is_execute_route (request : WorkerRequest) : bool :=
  (jsstring_eqb (pathname request) (js "/execute")
   && jsstring_eqb (method request) (js "POST"))%bool.

Definition is_batch_route (request : WorkerRequest) : bool :=
  (jsstring_eqb (pathname request) (js "/execute-batch")
   && jsstring_eqb (method request) (js "POST"))%bool.

(** The key [fetch] hands to [validateApiKey]. *)
Definition presented_key (request : WorkerRequest) : option jsstring :=
  option_map (replace_first (js "Bearer ") []) (authorization request).

(** A sandbox call that is neither [destroy] nor the log of its failure,
    made on the sandbox [id]. *)
Definition keeps_sandbox (id : jsstring) (e : Event) : Prop :=
  e = EvCreateCodeContext id \/ exists script ms, e = EvRunCode id script ms.

(** ** Properties of [chunk] *)

Section Chunk.
Context {T : Type}.
Variable array : list T.
Variable size : Z.
Hypothesis size_pos : 1 <= size.

Let len := Z.of_nat (length array).

Lemma slice_window (i : Z) :
  0 <= i ->
  slice array i (i + size)
  = take (Z.to_nat size) (drop (Z.to_nat i) array).
Proof.
  intros Hi. unfold slice.
  destruct (Z.ltb_spec i 0) as [|_]; [lia|].
  destruct (Z.ltb_spec (i + size) 0) as [|_]; [lia|].
  destruct (Z_le_gt_dec (i + size) (Z.of_nat (length array))) as [Hin|Hout].
  - rewrite !Z.min_l by lia. do 2 f_equal. lia.
  - destruct (Z_le_gt_dec i (Z.of_nat (length array))) as [Hi'|Hi'].
    + rewrite (Z.min_l i) by lia. rewrite Z.min_r by lia.
      rewrite !take_ge; [reflexivity| |]; rewrite length_drop; lia.
    + rewrite !Z.min_r by lia.
      rewrite !drop_ge by lia. by rewrite !take_nil.
Qed.

Lemma rounds_from_step (i : Z) :
  i < len -> rounds_from array size i = 1 + rounds_from array size (i + size).
Proof.
  intros Hi. unfold rounds_from, ceil_div. fold len.
  destruct (Z.ltb_spec i len) as [_|]; [|lia].
  destruct (Z.ltb_spec (i + size) len) as [Hlt|Hge].
  - replace (len - i + size - 1) with (len - (i + size) + size - 1 + 1 * size)
      by lia.
    rewrite Z.div_add by lia. lia.
  - symmetry. apply Z.div_unique with (r := len - i - 1); lia.
Qed.

Lemma chunk_loop_spec (fuel : nat) :
  forall (i : Z) (chunks : list (list T)),
    0 <= i ->
    Z.max 0 (len - i) < Z.of_nat fuel ->
    exists cs,
      chunk_loop fuel array size i chunks = Some (chunks ++ cs)
      /\ concat cs = drop (Z.to_nat i) array
      /\ Z.of_nat (length cs) = rounds_from array size i
      /\ forall r : nat,
           (r < length cs)%nat ->
           cs !! r = Some (take (Z.to_nat size)
                             (drop (Z.to_nat (i + Z.of_nat r * size)) array)).
Proof.
  induction fuel as [|fuel IH]; intros i chunks Hi Hfuel; [lia|].
  simpl. fold len. destruct (Z.ltb_spec i len) as [Hlt|Hge].
  - destruct (IH (i + size) (chunks ++ [slice array i (i + size)]))
      as (cs & Hrun & Hcat & Hlen & Hnth); [lia|lia|].
    exists (slice array i (i + size) :: cs). repeat split.
    + rewrite Hrun. by rewrite <- app_assoc.
    + simpl. rewrite Hcat, slice_window by lia.
      replace (Z.to_nat (i + size)) with (Z.to_nat i + Z.to_nat size)%nat
        by lia.
      rewrite <- drop_drop. apply take_drop.
    + simpl length. rewrite rounds_from_step by lia. lia.
    + intros [|r] Hr; simpl.
      * rewrite slice_window by lia. do 3 f_equal. lia.
      * simpl in Hr. rewrite Hnth by lia. do 3 f_equal. lia.
  - exists []. repeat split.
    + by rewrite app_nil_r.
    + simpl. rewrite drop_ge; [reflexivity|lia].
    + unfold rounds_from. fold len.
      destruct (Z.ltb_spec i len); [lia|reflexivity].
    + simpl. lia.
Qed.

(** With fuel beyond the length of the array, [chunk] returns; the rounds
    concatenate to the array, there are [ceil(len / size)] of them, and
    round [r] is the window of width [size] at offset [r * size]. *)
Lemma chunk_spec (fuel : nat) :
  (length array < fuel)%nat ->
  exists batches,
    chunk fuel array size = Some batches
    /\ concat batches = array
    /\ Z.of_nat (length batches) = ceil_div len size
    /\ forall r : nat,
         (r < length batches)%nat ->
         batches !! r = Some (take (Z.to_nat size)
                                (drop (Z.to_nat (Z.of_nat r * size)) array)).
Proof.
  intros Hfuel.
  destruct (chunk_loop_spec fuel 0 []) as (cs & Hrun & Hcat & Hlen & Hnth);
    [lia|lia|].
  exists cs. repeat split; try assumption.
  rewrite Hlen. unfold rounds_from. fold len.
  destruct (Z.ltb_spec 0 len) as [Hpos|Hz].
  - f_equal. lia.
  - assert (len = 0) as -> by lia. unfold ceil_div.
    symmetry. apply Z.div_small. lia.
Qed.

(** Every round but the last is full. *)
Lemma chunk_round_full (batches : list (list T)) (r : nat) (b : list T) :
  Z.of_nat (length batches) = ceil_div len size ->
  batches !! r
  = Some (take (Z.to_nat size) (drop (Z.to_nat (Z.of_nat r * size)) array)) ->
  batches !! r = Some b ->
  (S r < length batches)%nat ->
  Z.of_nat (length b) = size.
Proof.
  intros Hlen Hwin Hb Hr. rewrite Hwin in Hb. injection Hb as <-.
  rewrite length_take, length_drop.
  assert (Z.of_nat (S r) < ceil_div len size) as Hlt by lia.
  unfold ceil_div in Hlt.
  assert (Z.of_nat (S r) * size < len + size - 1 - (size - 1)).
  { pose proof (Z.div_mod (len + size - 1) size ltac:(lia)) as Hdm.
    pose proof (Z.mod_pos_bound (len + size - 1) size ltac:(lia)).
    nia. }
  lia.
Qed.

(** The last round holds the remainder, when there is one. *)
Lemma chunk_round_last (batches : list (list T)) (r : nat) (b : list T) :
  Z.of_nat (length batches) = ceil_div len size ->
  batches !! r
  = Some (take (Z.to_nat size) (drop (Z.to_nat (Z.of_nat r * size)) array)) ->
  batches !! r = Some b ->
  S r = length batches ->
  len mod size <> 0 ->
  Z.of_nat (length b) = len mod size.
Proof.
  intros Hlen Hwin Hb Hr Hrem. rewrite Hwin in Hb. injection Hb as <-.
  rewrite length_take, length_drop.
  assert (ceil_div len size = len / size + 1) as Hceil.
  { unfold ceil_div.
    pose proof (Z.div_mod len size ltac:(lia)) as Hdm.
    pose proof (Z.mod_pos_bound len size ltac:(lia)).
    symmetry. apply Z.div_unique with (r := len mod size - 1); lia. }
  assert (Z.of_nat r = len / size) as Hq by lia.
  pose proof (Z.div_mod len size ltac:(lia)) as Hdm.
  pose proof (Z.mod_pos_bound len size ltac:(lia)).
  nia.
Qed.
End Chunk.

(** A non-positive step never lets the loop leave a non-empty array. *)
Lemma chunk_loop_diverges {T} (array : list T) (size : Z) (fuel : nat) :
  forall (i : Z) (chunks : list (list T)),
    size <= 0 -> i < Z.of_nat (length array) ->
    chunk_loop fuel array size i chunks = None.
Proof.
  induction fuel as [|fuel IH]; intros i chunks Hsize Hi; [reflexivity|].
  simpl. destruct (Z.ltb_spec i (Z.of_nat (length array))); [|lia].
  apply IH; lia.
Qed.

(** ** Properties of the sentinel matcher *)

Lemma starts_with_app (pat post : jsstring) :
  starts_with pat (pat ++ post) = true.
Proof.
  induction pat as [|p pat IH]; simpl; [reflexivity|].
  by rewrite N.eqb_refl.
Qed.

Lemma starts_with_inv (pat s : jsstring) :
  starts_with pat s = true -> exists post, s = pat ++ post.
Proof.
  revert s. induction pat as [|p pat IH]; intros s H; simpl in *.
  - by exists s.
  - destruct s as [|c s]; [discriminate|].
    destruct (N.eqb_spec p c) as [->|]; [|discriminate].
    destruct (IH _ H) as [post ->]. by exists post.
Qed.

Lemma includes_drop (s pat : jsstring) (d : nat) :
  includes s pat = false -> starts_with pat (drop d s) = false.
Proof.
  revert d. induction s as [|c s IH]; intros d H; simpl in H.
  - rewrite drop_nil. by destruct (starts_with pat []).
  - destruct (starts_with pat (c :: s)) eqn:E; [discriminate|].
    destruct d as [|d]; simpl; [assumption|]. by apply IH.
Qed.

Lemma includes_intro (pre pat post : jsstring) :
  includes (pre ++ pat ++ post) pat = true.
Proof.
  induction pre as [|c pre IH]; simpl.
  - pose proof (starts_with_app pat post) as H.
    destruct (pat ++ post); simpl; by rewrite H.
  - by destruct (starts_with pat (c :: pre ++ pat ++ post)).
Qed.

Lemma one_line_app (a b : jsstring) :
  one_line (a ++ b) = (one_line a && one_line b)%bool.
Proof. apply forallb_app. Qed.

Lemma dot_run_le (s : jsstring) : (dot_run s <= length s)%nat.
Proof.
  induction s as [|c s IH]; simpl; [lia|].
  destruct (is_line_terminator c); simpl; lia.
Qed.

Lemma dot_run_take (s : jsstring) (j : nat) :
  (j <= dot_run s)%nat -> one_line (take j s) = true.
Proof.
  revert j. induction s as [|c s IH]; intros j Hj; simpl in *.
  - by rewrite take_nil.
  - destruct j as [|j]; [reflexivity|]. simpl.
    destruct (is_line_terminator c); [lia|]. simpl. apply IH. lia.
Qed.

Lemma dot_run_line (a b : jsstring) :
  one_line a = true -> starts_line b = true ->
  dot_run (a ++ b) = length a.
Proof.
  intros Ha Hb. induction a as [|c a IH]; simpl in *.
  - destruct b as [|c b]; simpl in *; [reflexivity|]. by rewrite Hb.
  - apply andb_prop in Ha as [Hc Ha].
    destruct (is_line_terminator c); [discriminate|]. by rewrite IH.
Qed.

Lemma dot_run_ge (a b : jsstring) :
  one_line a = true -> (length a <= dot_run (a ++ b))%nat.
Proof.
  intros Ha. induction a as [|c a IH]; simpl in *; [lia|].
  apply andb_prop in Ha as [Hc Ha].
  destruct (is_line_terminator c); [discriminate|].
  specialize (IH Ha). lia.
Qed.

(** A literal free of line terminators cannot straddle a line break. *)
Lemma starts_with_short (pat x tail : jsstring) :
  one_line pat = true -> starts_line tail = true ->
  (length x < length pat)%nat ->
  starts_with pat (x ++ tail) = false.
Proof.
  revert x. induction pat as [|p pat IH]; intros x Hpat Htail Hlen;
    simpl in *; [lia|].
  apply andb_prop in Hpat as [Hp Hpat].
  destruct x as [|a x]; simpl.
  - destruct tail as [|c tail]; [reflexivity|]. simpl in Htail.
    destruct (N.eqb_spec p c) as [->|]; [|reflexivity].
    by rewrite Htail in Hp.
  - destruct (N.eqb p a); [|reflexivity]. apply IH; auto. simpl in Hlen. lia.
Qed.

Lemma starts_with_long (pat x tail : jsstring) :
  (length pat <= length x)%nat ->
  starts_with pat (x ++ tail) = starts_with pat x.
Proof.
  revert x. induction pat as [|p pat IH]; intros x Hlen; simpl in *;
    [reflexivity|].
  destruct x as [|a x]; simpl in *; [lia|].
  destruct (N.eqb p a); [|reflexivity]. apply IH. lia.
Qed.

Section Matcher.
Variable marker : jsstring.

Lemma backtrack_sound (rest : jsstring) (j : nat) (g : jsstring) :
  (j <= dot_run rest)%nat ->
  backtrack marker rest j = Some g ->
  exists post, rest = g ++ marker ++ post /\ one_line g = true.
Proof.
  induction j as [|j IH]; intros Hj H; simpl in H.
  - destruct (starts_with marker (drop 0 rest)) eqn:E; [|discriminate].
    injection H as <-. apply starts_with_inv in E as [post E].
    exists post. simpl in *. auto.
  - destruct (starts_with marker (drop (S j) rest)) eqn:E.
    + injection H as <-. apply starts_with_inv in E as [post E].
      exists post. split.
      * rewrite <- E. symmetry. apply take_drop.
      * by apply dot_run_take.
    + apply IH; [lia|assumption].
Qed.

Lemma backtrack_finds (rest : jsstring) (j0 j : nat) :
  (j0 <= j)%nat ->
  starts_with marker (drop j0 rest) = true ->
  is_Some (backtrack marker rest j).
Proof.
  induction j as [|j IH]; intros Hj H.
  - assert (j0 = O) as -> by lia. simpl. simpl in H. rewrite H. eauto.
  - simpl. destruct (starts_with marker (drop (S j) rest)) eqn:E; [eauto|].
    apply IH; [|assumption].
    destruct (decide (j0 = S j)) as [->|]; [congruence|lia].
Qed.

(** The group ends at the last position, not beyond [j], where the closing
    literal is found. *)
Lemma backtrack_greedy (rest : jsstring) (j0 j : nat) :
  (j0 <= j)%nat ->
  starts_with marker (drop j0 rest) = true ->
  (forall j', (j0 < j' <= j)%nat ->
              starts_with marker (drop j' rest) = false) ->
  backtrack marker rest j = Some (take j0 rest).
Proof.
  induction j as [|j IH]; intros Hj H Hlast.
  - assert (j0 = O) as -> by lia. simpl. simpl in H. by rewrite H.
  - destruct (decide (j0 = S j)) as [->|Hne].
    + simpl. simpl in H. by rewrite H.
    + simpl. rewrite (Hlast (S j)) by lia.
      apply IH; [lia|assumption|]. intros j' Hj'. apply Hlast. lia.
Qed.

Lemma match_here_sound (s g : jsstring) :
  match_here marker s = Some g ->
  exists post, s = marker ++ g ++ marker ++ post /\ one_line g = true.
Proof.
  unfold match_here. destruct (starts_with marker s) eqn:E; [|discriminate].
  apply starts_with_inv in E as [rest ->]. rewrite drop_app_length.
  intros H. apply backtrack_sound in H as (post & -> & Hg); [|lia].
  by exists post.
Qed.

(** A match exhibits the sentinel pair around a group that stays on one
    line. *)
Lemma match_sentinel_sound (s g : jsstring) :
  match_sentinel marker s = Some g ->
  exists pre post,
    s = pre ++ marker ++ g ++ marker ++ post /\ one_line g = true.
Proof.
  induction s as [|c s IH]; simpl.
  - destruct (match_here marker []) eqn:E; [|discriminate].
    intros [= ->]. apply match_here_sound in E as (post & E & Hg).
    by exists [], post.
  - destruct (match_here marker (c :: s)) eqn:E.
    + intros [= ->]. apply match_here_sound in E as (post & E & Hg).
      by exists [], post.
    + intros H. destruct (IH H) as (pre & post & -> & Hg).
      by exists (c :: pre), post.
Qed.

(** Whenever the sentinel pair occurs around a one-line text, there is a
    match. *)
Lemma match_sentinel_complete (pre g post : jsstring) :
  one_line g = true ->
  is_Some (match_sentinel marker (pre ++ marker ++ g ++ marker ++ post)).
Proof.
  intros Hg.
  assert (is_Some (match_here marker (marker ++ g ++ marker ++ post))) as Hh.
  { unfold match_here. rewrite starts_with_app, drop_app_length.
    apply backtrack_finds with (j0 := length g).
    - by apply dot_run_ge.
    - rewrite drop_app_length. apply starts_with_app. }
  induction pre as [|c pre IH]; simpl.
  - destruct (marker ++ g ++ marker ++ post) eqn:E; simpl;
      destruct Hh as [x ->]; eauto.
  - destruct (match_here marker (c :: pre ++ marker ++ g ++ marker ++ post));
      eauto.
Qed.

(** Text that ends at a line break and does not hold the literal offers no
    position to start a match. *)
Lemma match_sentinel_skip (pre s : jsstring) :
  one_line marker = true ->
  ends_line pre = true -> includes pre marker = false ->
  match_sentinel marker (pre ++ s) = match_sentinel marker s.
Proof.
  intros Hm. induction pre as [|c pre IH]; intros Hend Hinc; [reflexivity|].
  simpl in Hinc.
  destruct (starts_with marker (c :: pre)) eqn:Hsw; [discriminate|].
  assert (starts_with marker ((c :: pre) ++ s) = false) as Hno.
  { destruct (le_lt_dec (length marker) (length (c :: pre))) as [Hle|Hlt].
    - by rewrite starts_with_long.
    - destruct (exists_last (l := c :: pre)) as (x & l & Hx); [discriminate|].
      rewrite Hx in Hend, Hlt |- *. unfold ends_line in Hend.
      rewrite last_snoc in Hend. rewrite <- app_assoc. simpl.
      apply starts_with_short; [assumption|assumption|].
      rewrite length_app in Hlt. simpl in Hlt. lia. }
  change (match_sentinel marker ((c :: pre) ++ s))
    with (match match_here marker ((c :: pre) ++ s) with
          | Some g => Some g
          | None => match_sentinel marker (pre ++ s)
          end).
  unfold match_here. rewrite Hno. apply IH; [|assumption].
  destruct pre as [|c' pre]; [reflexivity|]. exact Hend.
Qed.

(** On a line that opens with the literal, the group runs up to the last
    occurrence of the literal on that line. *)
Lemma match_here_line (g t2 post : jsstring) :
  one_line marker = true ->
  one_line g = true -> one_line t2 = true ->
  includes (drop 1 (marker ++ t2)) marker = false ->
  starts_line post = true ->
  match_here marker (marker ++ g ++ marker ++ t2 ++ post) = Some g.
Proof.
  intros Hm Hg Ht Hlast Hpost. unfold match_here.
  rewrite starts_with_app, drop_app_length.
  replace (g ++ marker ++ t2 ++ post) with ((g ++ marker ++ t2) ++ post)
    by (by rewrite <- !app_assoc).
  rewrite dot_run_line;
    [|by rewrite !one_line_app, Hg, Hm, Ht|assumption].
  rewrite <- !app_assoc.
  transitivity (Some (take (length g) (g ++ marker ++ t2 ++ post)));
    [|by rewrite take_app_length].
  apply backtrack_greedy.
  - rewrite length_app. lia.
  - rewrite drop_app_length. apply starts_with_app.
  - intros j' [Hlo Hhi]. rewrite !length_app in Hhi.
    replace j' with (length g + (j' - length g))%nat by lia.
    rewrite <- drop_drop, drop_app_length.
    set (d := (j' - length g)%nat).
    replace (marker ++ t2 ++ post) with ((marker ++ t2) ++ post)
      by (by rewrite <- app_assoc).
    rewrite drop_app_le by (rewrite length_app; lia).
    destruct (le_lt_dec (length marker) (length (drop d (marker ++ t2))))
      as [Hle|Hlt].
    + rewrite starts_with_long by assumption.
      replace d with (1 + (d - 1))%nat by lia.
      rewrite <- drop_drop. by apply includes_drop.
    + by apply starts_with_short.
Qed.

Lemma match_sentinel_line (pre g t2 post : jsstring) :
  one_line marker = true ->
  ends_line pre = true -> includes pre marker = false ->
  one_line g = true -> one_line t2 = true ->
  includes (drop 1 (marker ++ t2)) marker = false ->
  starts_line post = true ->
  match_sentinel marker (pre ++ marker ++ g ++ marker ++ t2 ++ post) = Some g.
Proof.
  intros Hm Hend Hpre Hg Ht Hlast Hpost.
  rewrite match_sentinel_skip by assumption.
  pose proof (match_here_line g t2 post Hm Hg Ht Hlast Hpost) as Hh.
  destruct (marker ++ g ++ marker ++ t2 ++ post); simpl; by rewrite Hh.
Qed.
End Matcher.

(** ** The matcher against the words of the rule *)


Section FirstSentinel.
Variable marker : jsstring.

(** The group that [backtrack] returns ends at the last position, up to
    [j], where the closing literal is found. *)
Lemma backtrack_last (rest : jsstring) (j : nat) (g : jsstring) :
  (j <= length rest)%nat ->
  backtrack marker rest j = Some g ->
  forall j0, (j0 <= j)%nat ->
             starts_with marker (drop j0 rest) = true ->
             (j0 <= length g)%nat.
Proof.
  induction j as [|j IH]; intros Hj H j0 Hj0 Hs.
  - lia.
  - simpl in H. destruct (starts_with marker (drop (S j) rest)) eqn:E.
    + injection H as <-. rewrite length_take. lia.
    + destruct (decide (j0 = S j)) as [->|Hne]; [congruence|].
      apply IH; [lia|assumption|lia|assumption].
Qed.

Lemma match_here_complete (g post : jsstring) :
  one_line g = true ->
  is_Some (match_here marker (marker ++ g ++ marker ++ post)).
Proof.
  intros Hg. unfold match_here. rewrite starts_with_app, drop_app_length.
  apply backtrack_finds with (j0 := length g).
  - by apply dot_run_ge.
  - rewrite drop_app_length. apply starts_with_app.
Qed.

(** An attempt that succeeds takes the longest group there is at its
    position. *)
Lemma match_here_greedy (t g g' post' : jsstring) :
  match_here marker t = Some g ->
  t = marker ++ g' ++ marker ++ post' -> one_line g' = true ->
  (length g' <= length g)%nat.
Proof.
  intros H -> Hg'. unfold match_here in H.
  rewrite starts_with_app, drop_app_length in H.
  eapply backtrack_last; [apply dot_run_le|exact H| |].
  - by apply dot_run_ge.
  - rewrite drop_app_length. apply starts_with_app.
Qed.

(** What the regular expression captures is the text of the first
    sentinel. *)
Lemma match_sentinel_first (s g : jsstring) :
  match_sentinel marker s = Some g -> first_sentinel marker s g.
Proof.
  revert g. induction s as [|c s IH]; intros g; simpl.
  - destruct (match_here marker []) as [g0|] eqn:E; [|discriminate].
    intros [= ->]. destruct (match_here_sound marker [] g E)
      as (post & Hs & Hg).
    exists [], post. split; [by split|].
    intros pre' g' post' [Hs' Hg']. split; [simpl; lia|].
    intros Hlen. destruct pre'; [|discriminate].
    by eapply match_here_greedy.
  - destruct (match_here marker (c :: s)) as [g0|] eqn:E.
    + intros [= ->]. destruct (match_here_sound marker (c :: s) g E)
        as (post & Hs & Hg).
      exists [], post. split; [by split|].
      intros pre' g' post' [Hs' Hg']. split; [simpl; lia|].
      intros Hlen. destruct pre'; [|discriminate].
      by eapply match_here_greedy.
    + intros H. destruct (IH g H) as (pre & post & [Hs Hg] & Hfirst).
      exists (c :: pre), post. split; [split; [by rewrite Hs|assumption]|].
      intros pre' g' post' [Hs' Hg']. destruct pre' as [|c' pre'].
      * exfalso. simpl in Hs'.
        destruct (match_here_complete g' post' Hg') as [x Hx].
        rewrite <- Hs' in Hx. congruence.
      * simpl in Hs'. injection Hs' as <- Hs'.
        destruct (Hfirst pre' g' post' (conj Hs' Hg')) as [Hle Hgreedy].
        simpl. split; [lia|]. intros Hlen. apply Hgreedy. lia.
Qed.



End FirstSentinel.


(** ** Properties of [executeItem] *)

Lemma executeItem_ready (env : Env) (functionId code functionName
    itemHex : jsstring) (timeoutSeconds : Z) :
  context_ready env functionId = true ->
  exists o,
    fst (executeItem env functionId code functionName itemHex timeoutSeconds)
    = Resolved o.
Proof.
  unfold context_ready, executeItem.
  destruct (createCodeContext _); [eauto|discriminate].
Qed.

Lemma executeItem_not_ready (env : Env) (functionId code functionName
    itemHex : jsstring) (timeoutSeconds : Z) (t : Thrown) :
  createCodeContext
    (getSandbox env (functionId ++ js "-" ++ take 8 (randomUUID env)))
  = Rejected t ->
  executeItem env functionId code functionName itemHex timeoutSeconds
  = (Rejected t,
     [EvCreateCodeContext (functionId ++ js "-" ++ take 8 (randomUUID env))]).
Proof. unfold executeItem. by intros ->. Qed.

(** ** Properties of the dispatcher *)

Lemma rejections_app {A} (ps qs : list (Settled A)) :
  rejections (ps ++ qs) = rejections ps ++ rejections qs.
Proof.
  induction ps as [|[a|t] ps IH]; simpl; [reflexivity|assumption|].
  by rewrite IH.
Qed.

Lemma resolutions_app {A} (ps qs : list (Settled A)) :
  resolutions (ps ++ qs) = resolutions ps ++ resolutions qs.
Proof.
  induction ps as [|[a|t] ps IH]; simpl; [reflexivity| |assumption].
  by rewrite IH.
Qed.

Lemma rejections_none {A} (ps : list (Settled A)) :
  (forall j p, ps !! j = Some p -> exists a, p = Resolved a) ->
  rejections ps = [].
Proof.
  induction ps as [|p ps IH]; intros H; [reflexivity|].
  destruct (H O p eq_refl) as [a ->]. simpl.
  apply IH. intros j q Hq. exact (H (S j) q Hq).
Qed.

Lemma resolutions_lookup {A} (ps : list (Settled A)) (j : nat) (a : A) :
  rejections ps = [] ->
  ps !! j = Some (Resolved a) ->
  resolutions ps !! j = Some a.
Proof.
  revert j. induction ps as [|[b|t] ps IH]; intros j Hrej Hj; simpl in *;
    [discriminate| |discriminate].
  destruct j as [|j]; simpl in *; [congruence|]. by apply IH.
Qed.

Lemma resolutions_length {A} (ps : list (Settled A)) :
  rejections ps = [] -> length (resolutions ps) = length ps.
Proof.
  induction ps as [|[b|t] ps IH]; intros Hrej; simpl in *;
    [reflexivity| |discriminate].
  by rewrite IH.
Qed.

Section Dispatcher.
Variable w : World.
Variables function_id code function_name : jsstring.
Variable timeout : Z.

Lemma run_all_app (k : nat) (xs ys : list jsstring) :
  run_all w function_id code function_name timeout k (xs ++ ys)
  = run_all w function_id code function_name timeout k xs
    ++ run_all w function_id code function_name timeout (k + length xs) ys.
Proof.
  unfold run_all. rewrite imap_app. f_equal.
  apply imap_ext. intros j x _. simpl. do 2 f_equal. lia.
Qed.

Lemma run_all_lookup (k j : nat) (items : list jsstring) (item : jsstring) :
  items !! j = Some item ->
  run_all w function_id code function_name timeout k items !! j
  = Some (executeItem (item_env w (k + j)%nat) function_id code function_name
            item timeout).
Proof.
  intros H. unfold run_all. rewrite list_lookup_imap, H. reflexivity.
Qed.

Lemma run_all_length (k : nat) (items : list jsstring) :
  length (run_all w function_id code function_name timeout k items)
  = length items.
Proof. unfold run_all. apply length_imap. Qed.

(** When every context creation resolves, no call of [executeItem]
    rejects. *)
Lemma run_all_no_rejection (k : nat) (items : list jsstring) :
  (forall j, (j < length items)%nat ->
             context_ready (item_env w (k + j)%nat) function_id = true) ->
  rejections
    (List.map fst (run_all w function_id code function_name timeout k items))
  = [].
Proof.
  intros Hready. apply rejections_none. intros j p Hp.
  change (List.map fst ?l) with (fst <$> l) in Hp.
  rewrite list_lookup_fmap in Hp.
  destruct (items !! j) as [item|] eqn:Hitem.
  - rewrite (run_all_lookup _ _ _ _ Hitem) in Hp. simpl in Hp.
    injection Hp as <-. apply executeItem_ready, Hready.
    by apply lookup_lt_Some in Hitem.
  - apply lookup_ge_None in Hitem.
    rewrite lookup_ge_None_2 in Hp; [discriminate|].
    rewrite run_all_length. lia.
Qed.

(** Rounds that see no rejection run to the end, and the results and the
    traces are those of the items in input order. *)
Lemma run_batches_resolved (batches : list (list jsstring)) :
  forall (round k : nat) (allResults : list ExecuteResponse)
         (traces : list (list Event)),
    rejections
      (List.map fst
         (run_all w function_id code function_name timeout k
            (concat batches))) = [] ->
    run_batches w function_id code function_name timeout batches round k
      allResults traces
    = (Resolved
         (allResults
          ++ resolutions
               (List.map fst
                  (run_all w function_id code function_name timeout k
                     (concat batches)))),
       traces
       ++ List.map snd
            (run_all w function_id code function_name timeout k
               (concat batches))).
Proof.
  induction batches as [|batch rest IH]; intros round k allResults traces Hrej.
  - simpl. by rewrite !app_nil_r.
  - simpl concat in *. rewrite run_all_app in Hrej |- *.
    rewrite !List.map_app in *. rewrite rejections_app in Hrej.
    apply app_eq_nil in Hrej as [Hbatch Hrest].
    simpl. fold (run_all w function_id code function_name timeout k batch).
    unfold promise_all. rewrite Hbatch.
    rewrite IH by assumption.
    by rewrite resolutions_app, !app_assoc.
Qed.

(** Rounds that run to the end have seen no rejection. *)
Lemma run_batches_inv (batches : list (list jsstring)) :
  forall (round k : nat) (allResults rs : list ExecuteResponse)
         (traces tr : list (list Event)),
    run_batches w function_id code function_name timeout batches round k
      allResults traces = (Resolved rs, tr) ->
    rejections
      (List.map fst
         (run_all w function_id code function_name timeout k
            (concat batches))) = [].
Proof.
  induction batches as [|batch rest IH];
    intros round k allResults rs traces tr Hrun; [reflexivity|].
  simpl concat. rewrite run_all_app, List.map_app, rejections_app.
  simpl in Hrun. fold (run_all w function_id code function_name timeout k batch)
    in Hrun.
  unfold promise_all in Hrun.
  destruct (rejections
              (List.map fst
                 (run_all w function_id code function_name timeout k batch)))
    as [|t ts]; [|discriminate].
  simpl. by eapply IH.
Qed.
End Dispatcher.

(** ** The batch as a whole *)

Lemma truthy_nonempty (x : jsstring) : x <> [] -> truthy_str (Some x) = true.
Proof. by destruct x. Qed.

(** A well-formed batch whose context creations all resolve is answered with
    status 200; the results and the traces are those of the calls of
    [executeItem] in item order. *)
Lemma handleExecuteBatch_completes (fuel : nat) (w : World)
    (function_id code function_name : jsstring) (items : list jsstring)
    (mc tmo : option Z) :
  function_id <> [] -> code <> [] -> function_name <> [] ->
  1 <= or_default mc 10 ->
  (length items < fuel)%nat ->
  (forall k, (k < length items)%nat ->
             context_ready (item_env w k) function_id = true) ->
  exists batches,
    chunk fuel items (or_default mc 10) = Some batches
    /\ rejections
         (List.map fst
            (run_all w function_id code function_name (or_default tmo 300) 0
               items)) = []
    /\ handleExecuteBatch fuel w
         (Some (batch_request function_id code function_name items mc tmo))
       = Some
           ({| status := 200;
               body := BodyBatch
                 {| results :=
                      resolutions
                        (List.map fst
                           (run_all w function_id code function_name
                              (or_default tmo 300) 0 items));
                    total_execution_time_ms :=
                      batch_exit_now w - batch_entry_now w;
                    batch_count := Z.of_nat (length batches);
                    max_containers := or_default mc 10 |} |},
            List.map snd
              (run_all w function_id code function_name (or_default tmo 300) 0
                 items)).
Proof.
  intros Hf Hc Hn Hcap Hfuel Hready.
  destruct (chunk_spec items (or_default mc 10) Hcap fuel Hfuel)
    as (batches & Hchunk & Hcat & _).
  assert (rejections
            (List.map fst
               (run_all w function_id code function_name (or_default tmo 300)
                  0 items)) = []) as Hrej.
  { apply run_all_no_rejection. intros j Hj. by apply Hready. }
  exists batches. split; [assumption|]. split; [assumption|].
  unfold handleExecuteBatch, batch_request.
  cbn [ExecuteBatchRequest.function_id ExecuteBatchRequest.code
       ExecuteBatchRequest.function_name ExecuteBatchRequest.items
       ExecuteBatchRequest.max_containers ExecuteBatchRequest.timeout].
  rewrite !truthy_nonempty by assumption.
  cbn [truthy_arr negb orb default from_option id].
  rewrite Hchunk.
  rewrite run_batches_resolved by (by rewrite Hcat).
  rewrite Hcat. reflexivity.
Qed.

(** Outcome [i] of a completed batch is what the call for item [i]
    returned. *)
Lemma completed_lookup (w : World)
    (function_id code function_name : jsstring) (timeout : Z)
    (items : list jsstring) (i : nat) (item : jsstring) :
  rejections
    (List.map fst (run_all w function_id code function_name timeout 0 items))
  = [] ->
  items !! i = Some item ->
  exists o,
    fst (executeItem (item_env w i) function_id code function_name item
           timeout) = Resolved o
    /\ resolutions
         (List.map fst
            (run_all w function_id code function_name timeout 0 items)) !! i
       = Some o.
Proof.
  intros Hrej Hitem.
  pose proof (run_all_lookup w function_id code function_name timeout 0 i
                items item Hitem) as Hcall.
  simpl in Hcall.
  destruct (fst (executeItem (item_env w i) function_id code function_name
                   item timeout)) as [o|t] eqn:Hfst.
  - exists o. split; [reflexivity|]. apply resolutions_lookup; [assumption|].
    change (List.map fst ?l) with (fst <$> l).
    by rewrite list_lookup_fmap, Hcall; simpl; rewrite Hfst.
  - exfalso.
    assert (List.map fst
              (run_all w function_id code function_name timeout 0 items) !! i
            = Some (Rejected t)) as Hbad.
    { change (List.map fst ?l) with (fst <$> l).
      by rewrite list_lookup_fmap, Hcall; simpl; rewrite Hfst. }
    clear Hcall Hfst Hitem. revert i Hbad Hrej.
    generalize (List.map fst
                  (run_all w function_id code function_name timeout 0 items)).
    intros ps. induction ps as [|[a|t'] ps IH]; intros [|i] Hbad Hrej;
      simpl in *; try discriminate; eauto.
Qed.

(** A batch body is only ever sent with status 200, after every call of
    [executeItem] has returned, and holds their outcomes in item order. *)
Lemma handleExecuteBatch_inv (fuel : nat) (w : World)
    (function_id code function_name : jsstring) (items : list jsstring)
    (mc tmo : option Z) (st : Z) (b : ExecuteBatchResponse)
    (traces : list (list Event)) :
  function_id <> [] -> code <> [] -> function_name <> [] ->
  1 <= or_default mc 10 ->
  (length items < fuel)%nat ->
  handleExecuteBatch fuel w
    (Some (batch_request function_id code function_name items mc tmo))
  = Some ({| status := st; body := BodyBatch b |}, traces) ->
  st = 200
  /\ rejections
       (List.map fst
          (run_all w function_id code function_name (or_default tmo 300) 0
             items)) = []
  /\ results b
     = resolutions
         (List.map fst
            (run_all w function_id code function_name (or_default tmo 300) 0
               items))
  /\ batch_count b
     = ceil_div (Z.of_nat (length items)) (or_default mc 10)
  /\ max_containers b = or_default mc 10.
Proof.
  intros Hf Hc Hn Hcap Hfuel.
  destruct (chunk_spec items (or_default mc 10) Hcap fuel Hfuel)
    as (batches & Hchunk & Hcat & Hlen & _).
  unfold handleExecuteBatch, batch_request.
  cbn [ExecuteBatchRequest.function_id ExecuteBatchRequest.code
       ExecuteBatchRequest.function_name ExecuteBatchRequest.items
       ExecuteBatchRequest.max_containers ExecuteBatchRequest.timeout].
  rewrite !truthy_nonempty by assumption.
  cbn [truthy_arr negb orb default from_option id].
  rewrite Hchunk.
  destruct (run_batches w function_id code function_name (or_default tmo 300)
              batches 0 0 [] []) as [[rs|err] tr] eqn:Hrun; [|discriminate].
  pose proof Hrun as Hrej. apply run_batches_inv in Hrej.
  rewrite run_batches_resolved in Hrun by assumption.
  rewrite Hcat in Hrej, Hrun. injection Hrun as <- <-.
  intros [= <- <-]. simpl. auto.
Qed.

Lemma executeItem_sandbox_id (env : Env) (functionId code functionName
    itemHex : jsstring) (timeoutSeconds : Z) (o : ExecuteResponse) :
  fst (executeItem env functionId code functionName itemHex timeoutSeconds)
  = Resolved o ->
  sandbox_id o = Some (functionId ++ js "-" ++ take 8 (randomUUID env)).
Proof.
  unfold executeItem.
  destruct (createCodeContext _); [|discriminate]. simpl.
  destruct (runCode _ _ _) as [res|err]; [|by intros [= <-]].
  destruct (truthy_str (SandboxResult.error res)); [by intros [= <-]|].
  destruct (includes (stderr_of res) FLARE_ERROR); [by intros [= <-]|].
  destruct (match_sentinel FLARE_RESULT (stdout_of res)); by intros [= <-].
Qed.

Lemma executeItem_dispatches (env : Env) (functionId code functionName
    itemHex : jsstring) (timeoutSeconds : Z) :
  context_ready env functionId = true ->
  exists id script ms,
    snd (executeItem env functionId code functionName itemHex timeoutSeconds)
      !! 1%nat = Some (EvRunCode id script ms).
Proof.
  unfold context_ready, executeItem.
  destruct (createCodeContext _); [|discriminate]. simpl. eauto.
Qed.

(** C1. For a well-formed batch request with effective cap [C >= 1],
    [chunk] cuts [items] into rounds whose concatenation is [items] again;
    whenever the dispatcher returns a results sequence, it has one entry per
    item and entry [i] is the outcome returned by the call of [executeItem]
    made for item [i]; and it does return one when every item obtains its
    execution context. *)
Theorem C1_order_preservation (fuel : nat) (w : World)
    (function_id code function_name : jsstring) (items : list jsstring)
    (mc tmo : option Z) :
  function_id <> [] -> code <> [] -> function_name <> [] ->
  1 <= or_default mc 10 ->
  (length items < fuel)%nat ->
  (exists batches,
     chunk fuel items (or_default mc 10) = Some batches
     /\ concat batches = items)
  /\ (forall st b traces,
        handleExecuteBatch fuel w
          (Some (batch_request function_id code function_name items mc tmo))
        = Some ({| status := st; body := BodyBatch b |}, traces) ->
        length (results b) = length items
        /\ forall i item,
             items !! i = Some item ->
             exists o,
               fst (executeItem (item_env w i) function_id code function_name
                      item (or_default tmo 300)) = Resolved o
               /\ results b !! i = Some o)
  /\ ((forall k, (k < length items)%nat ->
                 context_ready (item_env w k) function_id = true) ->
      exists b traces,
        handleExecuteBatch fuel w
          (Some (batch_request function_id code function_name items mc tmo))
        = Some ({| status := 200; body := BodyBatch b |}, traces)).
Proof.
  intros Hf Hc Hn Hcap Hfuel. split; [|split].
  - destruct (chunk_spec items (or_default mc 10) Hcap fuel Hfuel)
      as (batches & Hchunk & Hcat & _). eauto.
  - intros st b traces Hrun.
    destruct (handleExecuteBatch_inv fuel w function_id code function_name
                items mc tmo st b traces Hf Hc Hn Hcap Hfuel Hrun)
      as (_ & Hrej & -> & _).
    split.
    + rewrite resolutions_length by assumption.
      rewrite length_map. apply run_all_length.
    + intros i item Hitem. by apply completed_lookup.
  - intros Hready.
    destruct (handleExecuteBatch_completes fuel w function_id code
                function_name items mc tmo Hf Hc Hn Hcap Hfuel Hready)
      as (batches & _ & _ & Hrun).
    eauto.
Qed.

Lemma C1_order_preservation_witness :
  (exists batches,
     chunk 6 items5 2 = Some batches /\ concat batches = items5)
  /\ (forall st b traces,
        handleExecuteBatch 6 w_mixed (Some req_mixed)
        = Some ({| status := st; body := BodyBatch b |}, traces) ->
        length (results b) = length items5
        /\ forall i item,
             items5 !! i = Some item ->
             exists o,
               fst (executeItem (item_env w_mixed i) (js "fn")
                      (js "def double(x): return 2 * x") (js "double") item
                      300) = Resolved o
               /\ results b !! i = Some o)
  /\ ((forall k, (k < length items5)%nat ->
                 context_ready (item_env w_mixed k) (js "fn") = true) ->
      exists b traces,
        handleExecuteBatch 6 w_mixed (Some req_mixed)
        = Some ({| status := 200; body := BodyBatch b |}, traces)).
Proof.
  apply (C1_order_preservation 6 w_mixed (js "fn")
           (js "def double(x): return 2 * x") (js "double") items5
           (Some 2) None).
  - discriminate.
  - discriminate.
  - discriminate.
  - simpl. lia.
  - simpl. lia.
Defined.

(** Rounds of an integer cap. For a well-formed batch request with [N]
    items and an effective cap [C >= 1], [chunk] yields [ceil(N / C)] rounds, every round before the
    last has exactly [C] items and the last has [N mod C] items when that is
    not zero; whenever the dispatcher returns a batch body, its
    [batch_count] is [ceil(N / C)]; and it does return one when every item
    obtains its execution context. *)
Lemma round_count_integer (fuel : nat) (w : World)
    (function_id code function_name : jsstring) (items : list jsstring)
    (mc tmo : option Z) :
  function_id <> [] -> code <> [] -> function_name <> [] ->
  1 <= or_default mc 10 ->
  (length items < fuel)%nat ->
  (exists batches,
     chunk fuel items (or_default mc 10) = Some batches
     /\ Z.of_nat (length batches)
        = ceil_div (Z.of_nat (length items)) (or_default mc 10)
     /\ (forall r round,
           batches !! r = Some round -> (S r < length batches)%nat ->
           Z.of_nat (length round) = or_default mc 10)
     /\ (forall r round,
           batches !! r = Some round -> S r = length batches ->
           Z.of_nat (length items) mod or_default mc 10 <> 0 ->
           Z.of_nat (length round)
           = Z.of_nat (length items) mod or_default mc 10))
  /\ (forall st b traces,
        handleExecuteBatch fuel w
          (Some (batch_request function_id code function_name items mc tmo))
        = Some ({| status := st; body := BodyBatch b |}, traces) ->
        batch_count b
        = ceil_div (Z.of_nat (length items)) (or_default mc 10))
  /\ ((forall k, (k < length items)%nat ->
                 context_ready (item_env w k) function_id = true) ->
      exists b traces,
        handleExecuteBatch fuel w
          (Some (batch_request function_id code function_name items mc tmo))
        = Some ({| status := 200; body := BodyBatch b |}, traces)).
Proof.
  intros Hf Hc Hn Hcap Hfuel. split; [|split].
  - destruct (chunk_spec items (or_default mc 10) Hcap fuel Hfuel)
      as (batches & Hchunk & Hcat & Hlen & Hwin).
    exists batches. repeat split; [assumption|exact Hlen| |].
    + intros r round Hr Hlt.
      eapply (chunk_round_full items _ Hcap batches r round); eauto.
      apply Hwin. lia.
    + intros r round Hr Hlast Hrem.
      eapply (chunk_round_last items _ Hcap batches r round); eauto.
      apply Hwin. lia.
  - intros st b traces Hrun.
    by destruct (handleExecuteBatch_inv fuel w function_id code function_name
                   items mc tmo st b traces Hf Hc Hn Hcap Hfuel Hrun)
      as (_ & _ & _ & Hcount & _).
  - intros Hready.
    destruct (handleExecuteBatch_completes fuel w function_id code
                function_name items mc tmo Hf Hc Hn Hcap Hfuel Hready)
      as (batches & _ & _ & Hrun).
    eauto.
Qed.

(** ** The integer model inside the model for any number *)

Lemma to_integer_integer (q : Q) (z : Z) :
  Qeq q (inject_Z z) -> to_integer q = z.
Proof.
  unfold Qeq, to_integer. simpl. rewrite Z.mul_1_r. intros ->.
  apply Z.quot_mul. discriminate.
Qed.

Lemma Qltb_integer (q : Q) (i n : Z) :
  Qeq q (inject_Z i) -> Qltb q (inject_Z n) = (i <? n).
Proof.
  unfold Qeq, Qltb. simpl. rewrite !Z.mul_1_r. intros ->.
  destruct (Z.ltb_spec i n), (Z.ltb_spec (i * Z.pos (Qden q))
                                (n * Z.pos (Qden q))); try reflexivity; nia.
Qed.

Lemma Qplus_integer (q qi : Q) (c i : Z) :
  Qeq q (inject_Z c) -> Qeq qi (inject_Z i) ->
  Qeq (qi + q)%Q (inject_Z (i + c)).
Proof. intros -> ->. rewrite inject_Z_plus. reflexivity. Qed.

(** At an integer size the loop for any number is the loop for
    integers. *)
Lemma chunk_loop_number_integer {T} (array : list T) (q : Q) (c : Z)
    (fuel : nat) :
  Qeq q (inject_Z c) ->
  forall (qi : Q) (i : Z) (chunks : list (list T)),
    Qeq qi (inject_Z i) ->
    chunk_loop_number fuel array q qi chunks
    = chunk_loop fuel array c i chunks.
Proof.
  intros Hq. induction fuel as [|fuel IH]; intros qi i chunks Hqi;
    [reflexivity|].
  simpl. rewrite (Qltb_integer qi i _ Hqi).
  destruct (i <? Z.of_nat (length array)); [|reflexivity].
  rewrite (to_integer_integer qi i Hqi).
  rewrite (to_integer_integer (qi + q)%Q (i + c)
             (Qplus_integer q qi c i Hq Hqi)).
  apply IH. by apply Qplus_integer.
Qed.

Lemma chunk_number_integer {T} (array : list T) (q : Q) (c : Z)
    (fuel : nat) :
  Qeq q (inject_Z c) ->
  chunk_number fuel array q = chunk fuel array c.
Proof.
  intros Hq. unfold chunk_number, chunk.
  by apply chunk_loop_number_integer.
Qed.

(** With an effective cap that is the integer [c], not zero, the handler
    for any number answers as the handler for integers does at the cap
    [c]. *)
Lemma handleExecuteBatch_number_integer (fuel : nat) (w : World)
    (function_id code function_name : option jsstring)
    (items : option (list jsstring)) (mc : option Q) (c : Z)
    (tmo : option Z) :
  Qeq (or_default_number mc 10%Q) (inject_Z c) -> c <> 0 ->
  handleExecuteBatch_number fuel w
    (Some (NumberBatchRequest.mk function_id code function_name items mc
             tmo))
  = option_map
      (fun answer =>
         (number_response (or_default_number mc 10%Q) (fst answer),
          snd answer))
      (handleExecuteBatch fuel w
         (Some (ExecuteBatchRequest.mk function_id code function_name items
                  (Some c) tmo))).
Proof.
  intros Hq Hc. unfold handleExecuteBatch_number, handleExecuteBatch.
  cbn [NumberBatchRequest.function_id NumberBatchRequest.code
       NumberBatchRequest.function_name NumberBatchRequest.items
       NumberBatchRequest.max_containers NumberBatchRequest.timeout
       ExecuteBatchRequest.function_id ExecuteBatchRequest.code
       ExecuteBatchRequest.function_name ExecuteBatchRequest.items
       ExecuteBatchRequest.max_containers ExecuteBatchRequest.timeout].
  destruct (negb (truthy_str function_id) || negb (truthy_str code)
            || negb (truthy_str function_name) || negb (truthy_arr items))%bool;
    [reflexivity|].
  assert (or_default (Some c) 10 = c) as ->.
  { unfold or_default. by destruct (Z.eqb_spec c 0). }
  rewrite (chunk_number_integer _ _ c fuel Hq).
  destruct (chunk fuel (default [] items) c) as [batches|]; [|reflexivity].
  cbn [option_map].
  by destruct (run_batches w (default [] function_id) (default [] code)
                 (default [] function_name) (or_default tmo 300) batches 0 0
                 [] []) as [[rs|err] tr].
Qed.

(** C2, as the code has it. For a well-formed batch request with [N] items
    whose effective cap is an integer [C >= 1], [chunk] yields
    [ceil(N / C)] rounds, every round before the last has exactly [C] items
    and the last has [N mod C] items when that is not zero; whenever the
    dispatcher returns a batch body, its [batch_count] is [ceil(N / C)];
    and it does return one when every item obtains its execution
    context. *)
Theorem C2_round_count (fuel : nat) (w : World)
    (function_id code function_name : jsstring) (items : list jsstring)
    (mc : option Q) (c : Z) (tmo : option Z) :
  function_id <> [] -> code <> [] -> function_name <> [] ->
  Qeq (or_default_number mc 10%Q) (inject_Z c) ->
  1 <= c ->
  (length items < fuel)%nat ->
  (exists batches,
     chunk_number fuel items (or_default_number mc 10%Q) = Some batches
     /\ Z.of_nat (length batches) = ceil_div (Z.of_nat (length items)) c
     /\ (forall r round,
           batches !! r = Some round -> (S r < length batches)%nat ->
           Z.of_nat (length round) = c)
     /\ (forall r round,
           batches !! r = Some round -> S r = length batches ->
           Z.of_nat (length items) mod c <> 0 ->
           Z.of_nat (length round) = Z.of_nat (length items) mod c))
  /\ (forall st b traces,
        handleExecuteBatch_number fuel w
          (Some (NumberBatchRequest.mk (Some function_id) (Some code)
                   (Some function_name) (Some items) mc tmo))
        = Some ({| n_status := st; n_body := NumberBodyBatch b |}, traces) ->
        n_batch_count b = ceil_div (Z.of_nat (length items)) c)
  /\ ((forall k, (k < length items)%nat ->
                 context_ready (item_env w k) function_id = true) ->
      exists b traces,
        handleExecuteBatch_number fuel w
          (Some (NumberBatchRequest.mk (Some function_id) (Some code)
                   (Some function_name) (Some items) mc tmo))
        = Some ({| n_status := 200; n_body := NumberBodyBatch b |}, traces)).
Proof.
  intros Hf Hc Hn Hq Hcap Hfuel.
  assert (or_default (Some c) 10 = c) as Hcz.
  { unfold or_default. destruct (Z.eqb_spec c 0); [lia|reflexivity]. }
  assert (1 <= or_default (Some c) 10) as Hcap' by lia.
  destruct (round_count_integer fuel w function_id code function_name items
              (Some c) tmo Hf Hc Hn Hcap' Hfuel)
    as (Hrounds & Hcount & Hreturns).
  rewrite Hcz in Hrounds, Hcount.
  rewrite (handleExecuteBatch_number_integer fuel w (Some function_id)
             (Some code) (Some function_name) (Some items) mc c tmo Hq
             ltac:(lia)).
  fold (batch_request function_id code function_name items (Some c) tmo).
  split; [|split].
  - by rewrite (chunk_number_integer items _ c fuel Hq).
  - intros st b traces Hrun.
    destruct (handleExecuteBatch fuel w
                (Some (batch_request function_id code function_name items
                         (Some c) tmo))) as [[r tr]|] eqn:Hz;
      [|discriminate].
    cbn [option_map fst snd] in Hrun. unfold number_response in Hrun.
    destruct r as [st' [o|b']]; cbn [body status] in Hrun; [discriminate|].
    injection Hrun as <- <- <-. cbn [n_batch_count].
    by apply (Hcount st' b' tr).
  - intros Hready. destruct (Hreturns Hready) as (b & traces & Hrun).
    rewrite Hrun. cbn [option_map fst snd]. unfold number_response.
    cbn [body status]. eauto.
Qed.

Lemma C2_round_count_witness :
  (exists batches,
     chunk_number 6 items5 (or_default_number (Some (4 # 2)%Q) 10%Q)
     = Some batches
     /\ Z.of_nat (length batches) = ceil_div (Z.of_nat (length items5)) 2
     /\ (forall r round,
           batches !! r = Some round -> (S r < length batches)%nat ->
           Z.of_nat (length round) = 2)
     /\ (forall r round,
           batches !! r = Some round -> S r = length batches ->
           Z.of_nat (length items5) mod 2 <> 0 ->
           Z.of_nat (length round) = Z.of_nat (length items5) mod 2))
  /\ (forall st b traces,
        handleExecuteBatch_number 6 w_mixed
          (Some (NumberBatchRequest.mk (Some (js "fn"))
                   (Some (js "def double(x): return 2 * x"))
                   (Some (js "double")) (Some items5) (Some (4 # 2)%Q)
                   None))
        = Some ({| n_status := st; n_body := NumberBodyBatch b |}, traces) ->
        n_batch_count b = ceil_div (Z.of_nat (length items5)) 2)
  /\ ((forall k, (k < length items5)%nat ->
                 context_ready (item_env w_mixed k) (js "fn") = true) ->
      exists b traces,
        handleExecuteBatch_number 6 w_mixed
          (Some (NumberBatchRequest.mk (Some (js "fn"))
                   (Some (js "def double(x): return 2 * x"))
                   (Some (js "double")) (Some items5) (Some (4 # 2)%Q)
                   None))
        = Some ({| n_status := 200; n_body := NumberBodyBatch b |}, traces)).
Proof.
  apply (C2_round_count 6 w_mixed (js "fn")
           (js "def double(x): return 2 * x") (js "double") items5
           (Some (4 # 2)%Q) 2 None).
  - discriminate.
  - discriminate.
  - discriminate.
  - reflexivity.
  - lia.
  - simpl. lia.
Defined.

(** C2, as stated, fails: a cap of two and a half is at least one, and the
    dispatcher accepts it and answers 200 for five items; the first of its
    two rounds, which is not the last, has two items and not two and a
    half, and the last has three, more than the cap. *)
Lemma C2_counterexample :
  NumberBatchRequest.max_containers req_fractional = Some (5 # 2)%Q
  /\ Qle 1 (5 # 2)
  /\ chunk_number 6 (default [] (NumberBatchRequest.items req_fractional))
       (5 # 2)%Q
     = Some [[js "8001"; js "8002"]; [js "8003"; js "8004"; js "8005"]]
  /\ ~ Qeq (inject_Z (Z.of_nat (length [js "8001"; js "8002"]))) (5 # 2)
  /\ Qlt (5 # 2)
       (inject_Z (Z.of_nat (length [js "8003"; js "8004"; js "8005"])))
  /\ exists b traces,
       handleExecuteBatch_number 6 w_mixed (Some req_fractional)
       = Some ({| n_status := 200; n_body := NumberBodyBatch b |}, traces)
       /\ n_max_containers b = (5 # 2)%Q
       /\ n_batch_count b = 2
       /\ length (n_results b) = 5%nat.
Proof.
  split; [reflexivity|]. split; [discriminate|]. split; [reflexivity|].
  split; [discriminate|]. split; [reflexivity|].
  eexists _, _. vm_compute. repeat split.
Qed.

(** C3. In a well-formed batch with effective cap [C >= 1] whose items all
    obtain their execution context, whatever [runCode] does for any item
    (it may reject, report a runtime error, print the error sentinel or
    print no result sentinel), the response has status 200, and every item
    has its [runCode] call made and its own outcome at its own index. *)
Theorem C3_batch_isolation (fuel : nat) (w : World)
    (function_id code function_name : jsstring) (items : list jsstring)
    (mc tmo : option Z) :
  function_id <> [] -> code <> [] -> function_name <> [] ->
  1 <= or_default mc 10 ->
  (length items < fuel)%nat ->
  (forall k, (k < length items)%nat ->
             context_ready (item_env w k) function_id = true) ->
  exists b traces,
    handleExecuteBatch fuel w
      (Some (batch_request function_id code function_name items mc tmo))
    = Some ({| status := 200; body := BodyBatch b |}, traces)
    /\ length (results b) = length items
    /\ forall i item,
         items !! i = Some item ->
         exists o tr,
           executeItem (item_env w i) function_id code function_name item
             (or_default tmo 300) = (Resolved o, tr)
           /\ results b !! i = Some o
           /\ traces !! i = Some tr
           /\ exists id script ms, tr !! 1%nat = Some (EvRunCode id script ms).
Proof.
  intros Hf Hc Hn Hcap Hfuel Hready.
  destruct (handleExecuteBatch_completes fuel w function_id code function_name
              items mc tmo Hf Hc Hn Hcap Hfuel Hready)
    as (batches & Hchunk & Hrej & Hrun).
  eexists _, _. repeat split; [exact Hrun| |].
  - simpl. rewrite resolutions_length by assumption.
    rewrite length_map. apply run_all_length.
  - intros i item Hitem.
    destruct (completed_lookup w function_id code function_name
                (or_default tmo 300) items i item Hrej Hitem)
      as (o & Hfst & Hres).
    exists o,
      (snd (executeItem (item_env w i) function_id code function_name item
              (or_default tmo 300))).
    repeat split.
    + rewrite <- Hfst. apply surjective_pairing.
    + exact Hres.
    + change (List.map snd ?l) with (snd <$> l).
      rewrite list_lookup_fmap.
      by rewrite (run_all_lookup w function_id code function_name
                    (or_default tmo 300) 0 i items item Hitem).
    + apply executeItem_dispatches, Hready. by apply lookup_lt_Some in Hitem.
Qed.

Lemma C3_batch_isolation_witness :
  exists b traces,
    handleExecuteBatch 6 w_mixed (Some req_mixed)
    = Some ({| status := 200; body := BodyBatch b |}, traces)
    /\ length (results b) = length items5
    /\ forall i item,
         items5 !! i = Some item ->
         exists o tr,
           executeItem (item_env w_mixed i) (js "fn")
             (js "def double(x): return 2 * x") (js "double") item 300
           = (Resolved o, tr)
           /\ results b !! i = Some o
           /\ traces !! i = Some tr
           /\ exists id script ms, tr !! 1%nat = Some (EvRunCode id script ms).
Proof.
  apply (C3_batch_isolation 6 w_mixed (js "fn")
           (js "def double(x): return 2 * x") (js "double") items5
           (Some 2) None).
  - discriminate.
  - discriminate.
  - discriminate.
  - simpl. lia.
  - simpl. lia.
  - intros k Hk. do 5 (destruct k as [|k]; [reflexivity|]). simpl in Hk. lia.
Defined.

(** The mixed batch: one success and four failures of different kinds, all
    reported, in input order, under status 200. *)
Example mixed_batch_flags :
  match handleExecuteBatch 6 w_mixed (Some req_mixed) with
  | Some ({| status := st; body := BodyBatch b |}, _) =>
      st = 200
      /\ List.map success (results b) = [true; false; false; false; false]
      /\ List.map error (results b)
         = [None; Some (js "bad"); Some (js "Execution timed out");
            Some (js "Failed to extract result from output");
            Some (js "network lost")]
      /\ batch_count b = 3
  | _ => False
  end.
Proof. vm_compute. repeat split. Qed.

(** ** Outcomes of a single item *)

(** Once the context exists, [executeItem] returns an outcome with its
    timing fields set, and a failure carries an error. *)
Lemma executeItem_returns_outcome (env : Env) (functionId code functionName
    itemHex : jsstring) (timeoutSeconds : Z) :
  context_ready env functionId = true ->
  exists o,
    fst (executeItem env functionId code functionName itemHex timeoutSeconds)
    = Resolved o
    /\ started_at o = Some (entry_iso env)
    /\ completed_at o = Some (exit_iso env)
    /\ execution_time_ms o = Some (exit_now env - entry_now env)
    /\ sandbox_id o
       = Some (functionId ++ js "-" ++ take 8 (randomUUID env))
    /\ (success o = false -> is_Some (error o)).
Proof.
  unfold context_ready, executeItem.
  destruct (createCodeContext _); [|discriminate]. intros _.
  destruct (runCode _ _ _) as [res|err]; simpl.
  - destruct (truthy_str (SandboxResult.error res)) eqn:Herr.
    + eexists. repeat split. simpl. intros _.
      destruct (SandboxResult.error res); [eauto|discriminate].
    + destruct (includes (stderr_of res) FLARE_ERROR).
      * eexists. repeat split. simpl. eauto.
      * destruct (match_sentinel FLARE_RESULT (stdout_of res));
          eexists; repeat split; simpl; eauto; discriminate.
  - eexists. repeat split. simpl. eauto.
Qed.

(** Once the context exists, [destroy] is called exactly once. *)
Lemma executeItem_destroy_once (env : Env) (functionId code functionName
    itemHex : jsstring) (timeoutSeconds : Z) :
  context_ready env functionId = true ->
  destroy_calls
    (snd (executeItem env functionId code functionName itemHex
            timeoutSeconds)) = 1%nat.
Proof.
  unfold context_ready, executeItem.
  destruct (createCodeContext _); [|discriminate]. intros _. simpl.
  by destruct (destroy _).
Qed.

(** What [destroy] settles with has no influence on what [executeItem]
    returns. *)
Lemma executeItem_destroy_swallowed (env : Env) (d : Settled unit)
    (functionId code functionName itemHex : jsstring) (timeoutSeconds : Z) :
  fst (executeItem (with_destroy env d) functionId code functionName itemHex
         timeoutSeconds)
  = fst (executeItem env functionId code functionName itemHex timeoutSeconds).
Proof.
  unfold executeItem, with_destroy. simpl.
  by destruct (createCodeContext _).
Qed.

Lemma executeItem_decode (env : Env) (functionId code functionName
    itemHex : jsstring) (timeoutSeconds : Z) (res : SandboxResult.t) :
  let sandbox :=
    getSandbox env (functionId ++ js "-" ++ take 8 (randomUUID env)) in
  createCodeContext sandbox = Resolved tt ->
  runCode sandbox (executionCode_item code functionName itemHex)
    (timeoutSeconds * 1000) = Resolved res ->
  exists o,
    fst (executeItem env functionId code functionName itemHex timeoutSeconds)
    = Resolved o
    /\ decoded_by_precedence res o.
Proof.
  intros sandbox Hctx Hrun. unfold executeItem. fold sandbox.
  rewrite Hctx, Hrun. unfold decoded_by_precedence, error_message.
  destruct (truthy_str (SandboxResult.error res)) eqn:Herr.
  { eexists. split; [reflexivity|]. simpl.
    repeat split; intros; congruence. }
  destruct (includes (stderr_of res) FLARE_ERROR) eqn:Hinc.
  { eexists. split; [reflexivity|]. simpl.
    repeat split; intros; congruence. }
  destruct (match_sentinel FLARE_RESULT (stdout_of res)) eqn:Hmatch.
  - eexists. split; [reflexivity|]. simpl.
    repeat split; intros; congruence.
  - eexists. split; [reflexivity|]. simpl.
    repeat split; intros; congruence.
Qed.

Lemma handleExecute_decode (env : Env) (function_id code function_name
    : jsstring) (args kwargs : option jsstring) (tmo : option Z)
    (res : SandboxResult.t) :
  let sandbox := getSandbox env (idFromName env function_id) in
  function_id <> [] -> code <> [] -> function_name <> [] ->
  createCodeContext sandbox = Resolved tt ->
  runCode sandbox
    (executionCode_single code function_name (default [] args)
       (default [] kwargs))
    (or_default tmo 300 * 1000) = Resolved res ->
  exists st o,
    fst (handleExecute env
           (Some (single_request function_id code function_name args kwargs
                    tmo)))
    = {| status := st; body := BodyExecute o |}
    /\ st = (if success o then 200 else 500)
    /\ decoded_by_precedence res o.
Proof.
  intros sandbox Hf Hc Hn Hctx Hrun. unfold handleExecute, single_request.
  cbn [ExecuteRequest.function_id ExecuteRequest.code
       ExecuteRequest.function_name ExecuteRequest.args
       ExecuteRequest.kwargs ExecuteRequest.timeout].
  rewrite !truthy_nonempty by assumption.
  cbn [negb orb default from_option id]. fold sandbox.
  rewrite Hctx, Hrun. unfold decoded_by_precedence, error_message.
  destruct (truthy_str (SandboxResult.error res)) eqn:Herr.
  { eexists _, _. split; [reflexivity|]. split; [reflexivity|]. simpl.
    repeat split; intros; congruence. }
  destruct (includes (stderr_of res) FLARE_ERROR) eqn:Hinc.
  { eexists _, _. split; [reflexivity|]. split; [reflexivity|]. simpl.
    repeat split; intros; congruence. }
  destruct (match_sentinel FLARE_RESULT (stdout_of res)) eqn:Hmatch.
  - eexists _, _. split; [reflexivity|]. split; [reflexivity|]. simpl.
    repeat split; intros; congruence.
  - eexists _, _. split; [reflexivity|]. split; [reflexivity|]. simpl.
    repeat split; intros; congruence.
Qed.

(** ** Failure of the context creation *)

(** C4. Where the claim fails: [createCodeContext] is awaited before the
    [try] of [executeItem], so its rejection leaves [executeItem] as a
    rejection instead of an outcome with [success: false]; the batch is then
    answered with status 500 and no results. [handleExecute] awaits the same
    call inside its [try] and turns the same rejection into a failure
    body. *)
Theorem C4_context_failure_escapes :
  executeItem (item_env w_no_context 1) (js "fn")
    (js "def double(x): return 2 * x") (js "double") (js "8002") 300
  = (Rejected (ThrownError (js "container failed to start")),
     [EvCreateCodeContext (js "fn-1b1b1b1b")])
  /\ option_map fst (handleExecuteBatch 4 w_no_context (Some (req_three None)))
     = Some {| status := 500;
               body := BodyExecute
                         (bare_failure (js "container failed to start")) |}
  /\ fst (handleExecute (item_env w_no_context 1) (Some req_single))
     = {| status := 500;
          body := BodyExecute
                    (bare_failure (js "container failed to start")) |}.
Proof. vm_compute. repeat split. Qed.

(** C5. Where the claim fails: when [createCodeContext] rejects, the
    [finally] block of [executeItem] is never entered and the sandbox that
    [getSandbox] handed out receives no [destroy] call. *)
Theorem C5_context_failure_skips_destroy :
  destroy_calls
    (snd (executeItem (item_env w_no_context 1) (js "fn")
            (js "def double(x): return 2 * x") (js "double") (js "8002") 300))
  = 0%nat
  /\ option_map (fun r => List.map destroy_calls (snd r))
       (handleExecuteBatch 4 w_no_context (Some (req_three None)))
     = Some [1%nat; 0%nat; 1%nat].
Proof. vm_compute. repeat split. Qed.

(** ** Decoding *)

(** Case analysis along the branches of a handler, on an equation that
    names its value. *)
Ltac branches H :=
  repeat match type of H with
         | context [match ?x with _ => _ end] => destruct x eqn:?
         | context [if ?x then _ else _] => destruct x eqn:?
         end.





(** In [res_both] stderr holds a well-formed error sentinel around [bad]
    and stdout a well-formed result sentinel around [8004]. *)
Example res_both_sentinels :
  runtime_silent res_both
  /\ contains (stderr_of res_both) FLARE_ERROR
  /\ first_sentinel FLARE_ERROR (stderr_of res_both) (js "bad")
  /\ first_sentinel FLARE_RESULT (stdout_of res_both) (js "8004").
Proof.
  split; [by left|]. split; [by exists [], (js "bad" ++ FLARE_ERROR)|].
  split; by apply match_sentinel_first.
Qed.

(** The error sentinel wins over a well-formed result sentinel, and a
    runtime error wins over both. *)
Example sentinel_precedence :
  (exists o,
     fst (executeItem (env_res res_both) (js "fn")
            (js "def double(x): return 2 * x") (js "double") (js "8002") 300)
     = Resolved o
     /\ success o = false /\ error o = Some (js "bad") /\ result o = None)
  /\ (exists o,
        fst (executeItem (env_res res_error_and_both) (js "fn")
               (js "def double(x): return 2 * x") (js "double") (js "8002")
               300)
        = Resolved o
        /\ success o = false
        /\ error o = Some (js "Execution timed out")
        /\ result o = None).
Proof. split; eexists; vm_compute; repeat split. Qed.

(** The message of a line with several sentinel pairs: the span from the
    first opening marker to the last closing marker of the line. *)
Lemma error_message_greedy (pre m1 further t2 post : jsstring) :
  ends_line pre = true -> includes pre FLARE_ERROR = false ->
  one_line m1 = true -> one_line further = true -> one_line t2 = true ->
  includes (drop 1 (FLARE_ERROR ++ t2)) FLARE_ERROR = false ->
  starts_line post = true ->
  let stderr_ :=
    pre ++ FLARE_ERROR ++ m1 ++ FLARE_ERROR ++ further ++ FLARE_ERROR ++ t2
    ++ post in
  includes stderr_ FLARE_ERROR = true
  /\ error_message stderr_ = m1 ++ FLARE_ERROR ++ further.
Proof.
  intros Hend Hpre Hm1 Hfur Ht2 Hlast Hpost stderr_. split.
  - apply includes_intro.
  - unfold error_message, stderr_.
    replace (pre ++ FLARE_ERROR ++ m1 ++ FLARE_ERROR ++ further
             ++ FLARE_ERROR ++ t2 ++ post)
      with (pre ++ FLARE_ERROR ++ (m1 ++ FLARE_ERROR ++ further)
            ++ FLARE_ERROR ++ t2 ++ post)
      by (by rewrite <- !app_assoc).
    rewrite match_sentinel_line; try assumption; try reflexivity.
    rewrite !one_line_app, Hm1, Hfur. reflexivity.
Qed.

(** The token without a pair on one line gives the fixed message. *)
Lemma error_message_unknown (stderr_ : jsstring) :
  (forall pre m post,
     stderr_ = pre ++ FLARE_ERROR ++ m ++ FLARE_ERROR ++ post ->
     one_line m = false) ->
  error_message stderr_ = js "Unknown error".
Proof.
  intros Hnone. unfold error_message.
  destruct (match_sentinel FLARE_ERROR stderr_) as [g|] eqn:Hmatch;
    [|reflexivity].
  apply match_sentinel_sound in Hmatch as (pre & post & Heq & Hg).
  rewrite (Hnone pre g post Heq) in Hg. discriminate.
Qed.

(** C7, as the code has it. The capture group is greedy: for a stderr line
    that reads marker, [m1], marker, [further], marker and then text [t2]
    with no later marker on the line, the reported error is [m1], marker,
    [further] (everything up to the last closing marker of the line), in
    [executeItem] and in [handleExecute] alike. *)
Theorem C7_greedy_error_message :
  (forall (env : Env) (functionId code functionName itemHex : jsstring)
          (timeoutSeconds : Z) (res : SandboxResult.t)
          (pre m1 further t2 post : jsstring),
     createCodeContext
       (getSandbox env (functionId ++ js "-" ++ take 8 (randomUUID env)))
     = Resolved tt ->
     runCode
       (getSandbox env (functionId ++ js "-" ++ take 8 (randomUUID env)))
       (executionCode_item code functionName itemHex) (timeoutSeconds * 1000)
     = Resolved res ->
     truthy_str (SandboxResult.error res) = false ->
     stderr_of res
     = pre ++ FLARE_ERROR ++ m1 ++ FLARE_ERROR ++ further ++ FLARE_ERROR ++ t2
       ++ post ->
     ends_line pre = true -> includes pre FLARE_ERROR = false ->
     one_line m1 = true -> one_line further = true -> one_line t2 = true ->
     includes (drop 1 (FLARE_ERROR ++ t2)) FLARE_ERROR = false ->
     starts_line post = true ->
     exists o,
       fst (executeItem env functionId code functionName itemHex
              timeoutSeconds) = Resolved o
       /\ success o = false
       /\ error o = Some (m1 ++ FLARE_ERROR ++ further))
  /\ (forall (env : Env) (function_id code function_name : jsstring)
             (args kwargs : option jsstring) (tmo : option Z)
             (res : SandboxResult.t) (pre m1 further t2 post : jsstring),
        function_id <> [] -> code <> [] -> function_name <> [] ->
        createCodeContext (getSandbox env (idFromName env function_id))
        = Resolved tt ->
        runCode (getSandbox env (idFromName env function_id))
          (executionCode_single code function_name (default [] args)
             (default [] kwargs))
          (or_default tmo 300 * 1000) = Resolved res ->
        truthy_str (SandboxResult.error res) = false ->
        stderr_of res
        = pre ++ FLARE_ERROR ++ m1 ++ FLARE_ERROR ++ further ++ FLARE_ERROR
          ++ t2 ++ post ->
        ends_line pre = true -> includes pre FLARE_ERROR = false ->
        one_line m1 = true -> one_line further = true -> one_line t2 = true ->
        includes (drop 1 (FLARE_ERROR ++ t2)) FLARE_ERROR = false ->
        starts_line post = true ->
        exists o,
          fst (handleExecute env
                 (Some (single_request function_id code function_name args
                          kwargs tmo)))
          = {| status := 500; body := BodyExecute o |}
          /\ success o = false
          /\ error o = Some (m1 ++ FLARE_ERROR ++ further)).
Proof.
  split.
  - intros env functionId code functionName itemHex timeoutSeconds res
      pre m1 further t2 post Hctx Hrun Herr Hshape Hend Hpre Hm1 Hfur Ht2
      Hlast Hpost.
    destruct (executeItem_decode env functionId code functionName itemHex
                timeoutSeconds res Hctx Hrun) as (o & Ho & _ & Hsent & _).
    destruct (error_message_greedy pre m1 further t2 post Hend Hpre Hm1 Hfur
                Ht2 Hlast Hpost) as [Hinc Hmsg].
    rewrite <- Hshape in Hinc, Hmsg.
    destruct (Hsent Herr Hinc) as (Hs & He & _).
    exists o. rewrite He, Hmsg. auto.
  - intros env function_id code function_name args kwargs tmo res
      pre m1 further t2 post Hf Hc Hn Hctx Hrun Herr Hshape Hend Hpre Hm1
      Hfur Ht2 Hlast Hpost.
    destruct (handleExecute_decode env function_id code function_name args
                kwargs tmo res Hf Hc Hn Hctx Hrun)
      as (st & o & Ho & Hst & _ & Hsent & _).
    destruct (error_message_greedy pre m1 further t2 post Hend Hpre Hm1 Hfur
                Ht2 Hlast Hpost) as [Hinc Hmsg].
    rewrite <- Hshape in Hinc, Hmsg.
    destruct (Hsent Herr Hinc) as (Hs & He & _).
    exists o. rewrite He, Hmsg, Ho, Hst, Hs. auto.
Qed.

Lemma C7_greedy_error_message_witness :
  exists o,
    fst (executeItem (env_res res_two_pairs) (js "fn")
           (js "def double(x): return 2 * x") (js "double") (js "8002") 300)
    = Resolved o
    /\ success o = false
    /\ error o = Some (js "a" ++ FLARE_ERROR ++ js " then " ++ FLARE_ERROR
                       ++ js "b").
Proof.
  apply (proj1 C7_greedy_error_message (env_res res_two_pairs) (js "fn")
           (js "def double(x): return 2 * x") (js "double") (js "8002") 300
           res_two_pairs [] (js "a")
           (js " then " ++ FLARE_ERROR ++ js "b") []
           (newline ++ js "Traceback (most recent call last):"));
    reflexivity.
Defined.

(** C7, as stated, fails: on a line with two sentinel pairs around [a] and
    [b], the reported error is not [a] but the span that ends at the last
    closing marker. *)
Lemma C7_counterexample :
  stderr_of res_two_pairs
  = FLARE_ERROR ++ js "a" ++ FLARE_ERROR ++ js " then " ++ FLARE_ERROR
    ++ js "b" ++ FLARE_ERROR ++ newline
    ++ js "Traceback (most recent call last):"
  /\ exists o,
       fst (executeItem (env_res res_two_pairs) (js "fn")
              (js "def double(x): return 2 * x") (js "double") (js "8002")
              300) = Resolved o
       /\ error o = Some (js "a__FLARE_ERROR__ then __FLARE_ERROR__b")
       /\ error o <> Some (js "a").
Proof.
  split; [reflexivity|]. eexists. split; [reflexivity|].
  split; [reflexivity|]. vm_compute. discriminate.
Qed.

(** C10. When the runtime reports no error and stderr holds the token
    [__FLARE_ERROR__] but nowhere a pair of markers around text that stays
    on one line, the outcome is a failure whose error is the literal
    [Unknown error], in [executeItem] and in [handleExecute] alike. *)
Theorem C10_unknown_error :
  (forall (env : Env) (functionId code functionName itemHex : jsstring)
          (timeoutSeconds : Z) (res : SandboxResult.t),
     createCodeContext
       (getSandbox env (functionId ++ js "-" ++ take 8 (randomUUID env)))
     = Resolved tt ->
     runCode
       (getSandbox env (functionId ++ js "-" ++ take 8 (randomUUID env)))
       (executionCode_item code functionName itemHex) (timeoutSeconds * 1000)
     = Resolved res ->
     truthy_str (SandboxResult.error res) = false ->
     includes (stderr_of res) FLARE_ERROR = true ->
     (forall pre m post,
        stderr_of res = pre ++ FLARE_ERROR ++ m ++ FLARE_ERROR ++ post ->
        one_line m = false) ->
     exists o,
       fst (executeItem env functionId code functionName itemHex
              timeoutSeconds) = Resolved o
       /\ success o = false
       /\ error o = Some (js "Unknown error"))
  /\ (forall (env : Env) (function_id code function_name : jsstring)
             (args kwargs : option jsstring) (tmo : option Z)
             (res : SandboxResult.t),
        function_id <> [] -> code <> [] -> function_name <> [] ->
        createCodeContext (getSandbox env (idFromName env function_id))
        = Resolved tt ->
        runCode (getSandbox env (idFromName env function_id))
          (executionCode_single code function_name (default [] args)
             (default [] kwargs))
          (or_default tmo 300 * 1000) = Resolved res ->
        truthy_str (SandboxResult.error res) = false ->
        includes (stderr_of res) FLARE_ERROR = true ->
        (forall pre m post,
           stderr_of res = pre ++ FLARE_ERROR ++ m ++ FLARE_ERROR ++ post ->
           one_line m = false) ->
        exists o,
          fst (handleExecute env
                 (Some (single_request function_id code function_name args
                          kwargs tmo)))
          = {| status := 500; body := BodyExecute o |}
          /\ success o = false
          /\ error o = Some (js "Unknown error")).
Proof.
  split.
  - intros env functionId code functionName itemHex timeoutSeconds res
      Hctx Hrun Herr Hinc Hnone.
    destruct (executeItem_decode env functionId code functionName itemHex
                timeoutSeconds res Hctx Hrun) as (o & Ho & _ & Hsent & _).
    destruct (Hsent Herr Hinc) as (Hs & He & _).
    exists o. rewrite He, (error_message_unknown _ Hnone). auto.
  - intros env function_id code function_name args kwargs tmo res
      Hf Hc Hn Hctx Hrun Herr Hinc Hnone.
    destruct (handleExecute_decode env function_id code function_name args
                kwargs tmo res Hf Hc Hn Hctx Hrun)
      as (st & o & Ho & Hst & _ & Hsent & _).
    destruct (Hsent Herr Hinc) as (Hs & He & _).
    exists o. rewrite He, (error_message_unknown _ Hnone), Ho, Hst, Hs. auto.
Qed.

Lemma C10_unknown_error_witness :
  exists o,
    fst (executeItem (env_res res_split) (js "fn")
           (js "def double(x): return 2 * x") (js "double") (js "8002") 300)
    = Resolved o
    /\ success o = false
    /\ error o = Some (js "Unknown error").
Proof.
  apply (proj1 C10_unknown_error (env_res res_split) (js "fn")
           (js "def double(x): return 2 * x") (js "double") (js "8002") 300
           res_split).
  - reflexivity.
  - reflexivity.
  - reflexivity.
  - reflexivity.
  - intros pre m post Heq. destruct (one_line m) eqn:Hm; [|reflexivity].
    pose proof (match_sentinel_complete FLARE_ERROR pre m post Hm) as Hsome.
    rewrite <- Heq in Hsome. vm_compute in Hsome.
    destruct Hsome as [g Hg]. discriminate Hg.
Defined.

(** ** Session identifiers *)

(** C8, as the code has it. Whenever a batch returns its results, the
    session identifier of an item is [function_id], a hyphen and the first
    eight characters of the UUID drawn for that item, and two items have the
    same identifier exactly when their draws agree on those eight
    characters. *)
Theorem C8_ids_follow_uuid_prefix (fuel : nat) (w : World)
    (function_id code function_name : jsstring) (items : list jsstring)
    (mc tmo : option Z) (st : Z) (b : ExecuteBatchResponse)
    (traces : list (list Event)) :
  function_id <> [] -> code <> [] -> function_name <> [] ->
  1 <= or_default mc 10 ->
  (length items < fuel)%nat ->
  handleExecuteBatch fuel w
    (Some (batch_request function_id code function_name items mc tmo))
  = Some ({| status := st; body := BodyBatch b |}, traces) ->
  forall i j oi oj,
    results b !! i = Some oi -> results b !! j = Some oj ->
    sandbox_id oi
    = Some (function_id ++ js "-" ++ take 8 (randomUUID (item_env w i)))
    /\ (sandbox_id oi = sandbox_id oj
        <-> take 8 (randomUUID (item_env w i))
            = take 8 (randomUUID (item_env w j))).
Proof.
  intros Hf Hc Hn Hcap Hfuel Hrun.
  destruct (handleExecuteBatch_inv fuel w function_id code function_name
              items mc tmo st b traces Hf Hc Hn Hcap Hfuel Hrun)
    as (_ & Hrej & -> & _).
  assert (forall i o,
            resolutions
              (List.map fst
                 (run_all w function_id code function_name
                    (or_default tmo 300) 0 items)) !! i = Some o ->
            sandbox_id o
            = Some (function_id ++ js "-"
                    ++ take 8 (randomUUID (item_env w i)))) as Hid.
  { intros i o Ho.
    assert (i < length items)%nat as Hi.
    { apply lookup_lt_Some in Ho.
      rewrite resolutions_length, length_map, run_all_length in Ho;
        assumption. }
    destruct (lookup_lt_is_Some_2 items i Hi) as [item Hitem].
    destruct (completed_lookup w function_id code function_name
                (or_default tmo 300) items i item Hrej Hitem)
      as (o' & Hfst & Hres).
    assert (o' = o) as -> by congruence.
    by apply executeItem_sandbox_id in Hfst. }
  intros i j oi oj Hi Hj. split; [by apply Hid|].
  rewrite (Hid i oi Hi), (Hid j oj Hj). split.
  - intros Heq.
    assert (function_id ++ js "-" ++ take 8 (randomUUID (item_env w i))
            = function_id ++ js "-" ++ take 8 (randomUUID (item_env w j)))
      as Heq' by congruence.
    apply app_inv_head in Heq'. by apply app_inv_head in Heq'.
  - by intros ->.
Qed.

Lemma C8_ids_follow_uuid_prefix_witness :
  exists b traces,
    handleExecuteBatch 6 w_mixed (Some req_mixed)
    = Some ({| status := 200; body := BodyBatch b |}, traces)
    /\ forall i j oi oj,
         results b !! i = Some oi -> results b !! j = Some oj ->
         sandbox_id oi
         = Some (js "fn" ++ js "-" ++ take 8 (randomUUID (item_env w_mixed i)))
         /\ (sandbox_id oi = sandbox_id oj
             <-> take 8 (randomUUID (item_env w_mixed i))
                 = take 8 (randomUUID (item_env w_mixed j))).
Proof.
  eexists _, _. split; [vm_compute; reflexivity|].
  eapply (C8_ids_follow_uuid_prefix 6 w_mixed (js "fn")
            (js "def double(x): return 2 * x") (js "double") items5
            (Some 2) None 200).
  - discriminate.
  - discriminate.
  - discriminate.
  - simpl. lia.
  - simpl. lia.
  - vm_compute. reflexivity.
Defined.

(** C8, as stated, fails: two different well-formed UUIDs that share their
    first eight characters put the first two items of a batch into sessions
    with the same identifier. *)
Lemma C8_counterexample :
  is_uuid_v4 (randomUUID (item_env w_same_prefix 0)) = true
  /\ is_uuid_v4 (randomUUID (item_env w_same_prefix 1)) = true
  /\ randomUUID (item_env w_same_prefix 0)
     <> randomUUID (item_env w_same_prefix 1)
  /\ exists b traces o0 o1,
       handleExecuteBatch 4 w_same_prefix (Some (req_three None))
       = Some ({| status := 200; body := BodyBatch b |}, traces)
       /\ results b !! 0%nat = Some o0
       /\ results b !! 1%nat = Some o1
       /\ sandbox_id o0 = Some (js "fn-deadbeef")
       /\ sandbox_id o1 = Some (js "fn-deadbeef").
Proof.
  split; [reflexivity|]. split; [reflexivity|].
  split; [vm_compute; discriminate|].
  eexists _, _, _, _. vm_compute. repeat split.
Qed.

(** ** A cap that is not positive *)

(** C9, as the code has it. A [max_containers] of zero is not rejected: it
    is treated like an absent value, the cap is the default 10, and the
    batch is dispatched in [ceil(N / 10)] rounds with one result per item
    when every item obtains its execution context. *)
Theorem C9_zero_cap_defaults (fuel : nat) (w : World)
    (function_id code function_name : jsstring) (items : list jsstring)
    (tmo : option Z) :
  function_id <> [] -> code <> [] -> function_name <> [] ->
  (length items < fuel)%nat ->
  (forall k, (k < length items)%nat ->
             context_ready (item_env w k) function_id = true) ->
  handleExecuteBatch fuel w
    (Some (batch_request function_id code function_name items (Some 0) tmo))
  = handleExecuteBatch fuel w
      (Some (batch_request function_id code function_name items None tmo))
  /\ exists b traces,
       handleExecuteBatch fuel w
         (Some (batch_request function_id code function_name items (Some 0)
                  tmo))
       = Some ({| status := 200; body := BodyBatch b |}, traces)
       /\ max_containers b = 10
       /\ batch_count b = ceil_div (Z.of_nat (length items)) 10
       /\ length (results b) = length items
       /\ length traces = length items.
Proof.
  intros Hf Hc Hn Hfuel Hready. split; [reflexivity|].
  assert (1 <= or_default (Some 0) 10) as Hcap by (simpl; lia).
  destruct (chunk_spec items (or_default (Some 0) 10) Hcap fuel Hfuel)
    as (batches & Hchunk & _ & Hlen & _).
  destruct (handleExecuteBatch_completes fuel w function_id code function_name
              items (Some 0) tmo Hf Hc Hn Hcap Hfuel Hready)
    as (batches' & Hchunk' & Hrej & Hrun).
  assert (batches' = batches) as -> by congruence.
  eexists _, _. split; [exact Hrun|]. simpl. repeat split.
  - exact Hlen.
  - rewrite resolutions_length by assumption.
    rewrite length_map. apply run_all_length.
  - rewrite length_map. apply run_all_length.
Qed.

Lemma C9_zero_cap_defaults_witness :
  handleExecuteBatch 4 w_mixed (Some (req_three (Some 0)))
  = handleExecuteBatch 4 w_mixed (Some (req_three None))
  /\ exists b traces,
       handleExecuteBatch 4 w_mixed (Some (req_three (Some 0)))
       = Some ({| status := 200; body := BodyBatch b |}, traces)
       /\ max_containers b = 10
       /\ batch_count b = ceil_div 3 10
       /\ length (results b) = length items3
       /\ length traces = length items3.
Proof.
  apply (C9_zero_cap_defaults 4 w_mixed (js "fn")
           (js "def double(x): return 2 * x") (js "double") items3 None).
  - discriminate.
  - discriminate.
  - discriminate.
  - simpl. lia.
  - intros k Hk. do 3 (destruct k as [|k]; [reflexivity|]). simpl in Hk. lia.
Defined.

(** C9, as stated, fails: with [max_containers] zero the three items are
    executed and the caller receives a dispatched batch under status 200. *)
Lemma C9_counterexample :
  ExecuteBatchRequest.max_containers (req_three (Some 0)) = Some 0
  /\ exists b traces,
       handleExecuteBatch 4 w_mixed (Some (req_three (Some 0)))
       = Some ({| status := 200; body := BodyBatch b |}, traces)
       /\ length (results b) = 3%nat
       /\ List.map destroy_calls traces = [1%nat; 1%nat; 1%nat]
       /\ batch_count b = 1
       /\ max_containers b = 10.
Proof. split; [reflexivity|]. eexists _, _. vm_compute. repeat split. Qed.

(** X8. With a negative [max_containers] and at least one item, the loop of
    [chunk] never ends: no amount of fuel yields a response. *)
Lemma handleExecuteBatch_negative_cap (fuel : nat) (w : World)
    (function_id code function_name : jsstring) (items : list jsstring)
    (n : Z) (tmo : option Z) :
  function_id <> [] -> code <> [] -> function_name <> [] ->
  items <> [] -> n < 0 ->
  handleExecuteBatch fuel w
    (Some (batch_request function_id code function_name items (Some n) tmo))
  = None.
Proof.
  intros Hf Hc Hn Hitems Hneg. unfold handleExecuteBatch, batch_request.
  cbn [ExecuteBatchRequest.function_id ExecuteBatchRequest.code
       ExecuteBatchRequest.function_name ExecuteBatchRequest.items
       ExecuteBatchRequest.max_containers ExecuteBatchRequest.timeout].
  rewrite !truthy_nonempty by assumption.
  cbn [truthy_arr negb orb default from_option id].
  unfold chunk. rewrite chunk_loop_diverges; [reflexivity| |].
  - unfold or_default. destruct (Z.eqb_spec n 0); lia.
  - destruct items; [congruence|]. simpl. lia.
Qed.

(** ** The credential *)

Lemma jsstring_eqb_eq (a b : jsstring) : jsstring_eqb a b = true <-> a = b.
Proof.
  revert b. induction a as [|x a IH]; intros [|y b]; simpl;
    try (split; [discriminate|discriminate]); [tauto|].
  destruct (N.eqb_spec x y) as [->|Hne].
  - rewrite IH. split; [by intros ->|by intros [= ->]].
  - split; [discriminate|]. intros [= ? ?]. contradiction.
Qed.

Lemma replace_first_prefix (pat s : jsstring) :
  replace_first pat [] (pat ++ s) = s.
Proof.
  destruct (pat ++ s) as [|c t] eqn:E; simpl; rewrite <- E;
    by rewrite starts_with_app, drop_app_length.
Qed.

Lemma replace_first_absent (pat rep s : jsstring) :
  includes s pat = false -> replace_first pat rep s = s.
Proof.
  induction s as [|c s IH]; simpl.
  - by destruct (starts_with pat []).
  - destruct (starts_with pat (c :: s)); [discriminate|].
    intros H. by rewrite IH.
Qed.

(** X1. [validateApiKey] accepts exactly a key that is present, not empty,
    and equal to the configured secret; an empty key is refused even when
    the secret itself is empty, and every key is refused when no secret is
    configured. *)
Theorem validateApiKey_iff (apiKey : option jsstring) (env : WorkerEnv) :
  validateApiKey apiKey env = true
  <-> exists k, k <> [] /\ apiKey = Some k /\ API_KEY env = Some k.
Proof.
  unfold validateApiKey, strict_eq. split.
  - destruct apiKey as [[|c k]|]; cbn [truthy_str negb]; try discriminate.
    destruct (API_KEY env) as [secret|]; [|discriminate].
    intros H. apply jsstring_eqb_eq in H as <-.
    exists (c :: k). by repeat split.
  - intros (k & Hk & -> & ->). destruct k as [|c k]; [congruence|].
    cbn [truthy_str negb]. by apply jsstring_eqb_eq.
Qed.

(** ** The single route *)

(** The statuses of [handleExecute] and what each goes with. *)
Lemma handleExecute_shape (env : Env) (request : option ExecuteRequest.t) :
  exists o,
    body (fst (handleExecute env request)) = BodyExecute o
    /\ (status (fst (handleExecute env request)) = 200 /\ success o = true
        \/ status (fst (handleExecute env request)) = 400
           /\ success o = false
        \/ status (fst (handleExecute env request)) = 500
           /\ success o = false).
Proof.
  destruct (handleExecute env request) as [r tr] eqn:H.
  unfold handleExecute in H. branches H;
    injection H as <- <-; eexists; (split; [reflexivity|]); simpl; auto.
Qed.

(** On a body that is not JSON or that is an object: the answer is 200
    exactly when the body says [success: true], and 400 exactly when the
    body could not be parsed or lacks a non-empty [function_id], [code] or
    [function_name]; every other answer is a 500, and a 400 is sent before
    any sandbox call. *)
Lemma handleExecute_status (env : Env) (request : option ExecuteRequest.t) :
  exists o,
    body (fst (handleExecute env request)) = BodyExecute o
    /\ (status (fst (handleExecute env request)) = 200
        <-> success o = true)
    /\ (status (fst (handleExecute env request)) = 400
        <-> request = None
            \/ exists b,
                 request = Some b
                 /\ (truthy_str (ExecuteRequest.function_id b)
                     && truthy_str (ExecuteRequest.code b)
                     && truthy_str (ExecuteRequest.function_name b))%bool
                    = false)
    /\ (status (fst (handleExecute env request)) = 400 ->
        snd (handleExecute env request) = [])
    /\ (status (fst (handleExecute env request)) <> 200 ->
        status (fst (handleExecute env request)) <> 400 ->
        status (fst (handleExecute env request)) = 500).
Proof.
  destruct (handleExecute env request) as [r tr] eqn:H.
  unfold handleExecute in H.
  destruct request as [b|].
  - destruct (truthy_str (ExecuteRequest.function_id b)) eqn:Hf;
      destruct (truthy_str (ExecuteRequest.code b)) eqn:Hc;
      destruct (truthy_str (ExecuteRequest.function_name b)) eqn:Hn;
      cbn [negb orb andb] in H; branches H; injection H as <- <-;
      eexists; (split; [reflexivity|]); simpl;
      repeat split; try discriminate; try lia; try congruence; eauto;
      try (intros [Hnone|(b' & Hsome & Hb)];
           [discriminate
           |injection Hsome as <-; rewrite Hf, Hc, Hn in Hb; discriminate]);
      try (intros _; right; exists b; split; [reflexivity|];
           by rewrite Hf, Hc, Hn).
  - injection H as <- <-. eexists. split; [reflexivity|]. simpl.
    repeat split; try discriminate; try lia; eauto.
Qed.

(** X2. On the body [null], [handleExecute] throws a [TypeError] before
    its [try] and gives no answer. On every other body it answers: with 200
    exactly when the body of the answer says [success: true], with 400
    exactly when the request body is not JSON or lacks a non-empty
    [function_id], [code] or [function_name], and with 500 otherwise; a 400
    is sent before any sandbox call. *)
Theorem handleExecute_json_status (env : Env)
    (parsed : JsonBody ExecuteRequest.t) :
  (parsed = JsonNull ->
   handleExecute_json env parsed = Rejected (ThrownError null_function_id))
  /\ (parsed <> JsonNull ->
      exists r tr o,
        handleExecute_json env parsed = Resolved (r, tr)
        /\ body r = BodyExecute o
        /\ (status r = 200 <-> success o = true)
        /\ (status r = 400
            <-> parsed = JsonInvalid
                \/ exists b,
                     parsed = JsonObject b
                     /\ (truthy_str (ExecuteRequest.function_id b)
                         && truthy_str (ExecuteRequest.code b)
                         && truthy_str (ExecuteRequest.function_name b))%bool
                        = false)
        /\ (status r = 400 -> tr = [])
        /\ (status r <> 200 -> status r <> 400 -> status r = 500)).
Proof.
  split; [by intros ->|]. intros Hnot.
  destruct parsed as [| |b]; [|congruence|]; unfold handleExecute_json.
  - destruct (handleExecute_status env None)
      as (o & Hbody & H200 & H400 & Htrace & H500).
    destruct (handleExecute env None) as [r tr]. simpl in *.
    exists r, tr, o. repeat split; try tauto; try (intros _; by left);
      try (intros _; apply H400; by left).
  - destruct (handleExecute_status env (Some b))
      as (o & Hbody & H200 & H400 & Htrace & H500).
    destruct (handleExecute env (Some b)) as [r tr]. simpl in *.
    exists r, tr, o. repeat split; try tauto.
    + intros Hst. right. apply H400 in Hst as [|(b' & [= <-] & Hb)];
        [discriminate|]. by exists b.
    + intros [|(b' & [= <-] & Hb)]; [discriminate|].
      apply H400. right. by exists b.
Qed.

Lemma handleExecute_json_status_witness :
  handleExecute_json (env_res res_both) JsonNull
  = Rejected (ThrownError null_function_id).
Proof.
  apply (proj1 (handleExecute_json_status (env_res res_both) JsonNull)).
  reflexivity.
Defined.

(** X3. Whatever happens, [handleExecute] talks only to the sandbox named
    after [function_id], and never destroys it: its calls are
    [createCodeContext] and [runCode] on that one identifier, which does not
    depend on the random UUID. *)
Theorem handleExecute_keeps_sandbox (env : Env) (b : ExecuteRequest.t) :
  Forall
    (keeps_sandbox
       (idFromName env (default [] (ExecuteRequest.function_id b))))
    (snd (handleExecute env (Some b)))
  /\ destroy_calls (snd (handleExecute env (Some b))) = 0%nat.
Proof.
  destruct (handleExecute env (Some b)) as [r tr] eqn:H.
  unfold handleExecute in H. branches H; injection H as <- <-; simpl;
    (split; [|reflexivity]);
    repeat (apply Forall_cons; split; [unfold keeps_sandbox; eauto|]);
    apply Forall_nil; exact I.
Qed.

(** ** Teardown of an item *)

Lemma executeItem_trace_shape (env : Env) (functionId code functionName
    itemHex : jsstring) (timeoutSeconds : Z) :
  context_ready env functionId = true ->
  let id := functionId ++ js "-" ++ take 8 (randomUUID env) in
  exists tail,
    snd (executeItem env functionId code functionName itemHex timeoutSeconds)
    = [EvCreateCodeContext id;
       EvRunCode id (executionCode_item code functionName itemHex)
         (timeoutSeconds * 1000);
       EvDestroy id] ++ tail
    /\ destroy_calls tail = 0%nat.
Proof.
  unfold context_ready, executeItem.
  destruct (createCodeContext _); [|discriminate]. intros _. simpl.
  destruct (destroy _); eexists; split; reflexivity.
Qed.

Lemma executeItem_resolved_ready (env : Env) (functionId code functionName
    itemHex : jsstring) (timeoutSeconds : Z) (o : ExecuteResponse) :
  fst (executeItem env functionId code functionName itemHex timeoutSeconds)
  = Resolved o ->
  context_ready env functionId = true.
Proof.
  unfold context_ready, executeItem.
  by destruct (createCodeContext _).
Qed.

(** X4. Once its context exists, an item makes exactly three sandbox calls
    and no more, all on its own identifier and in the order
    [createCodeContext], [runCode], [destroy], whatever [runCode] and
    [destroy] settle with; a rejected [destroy] adds one line to the console
    and nothing else, and what [destroy] settles with does not change the
    outcome that is returned. *)
Theorem executeItem_teardown (env : Env) (d : Settled unit)
    (functionId code functionName itemHex : jsstring) (timeoutSeconds : Z) :
  context_ready env functionId = true ->
  let id := functionId ++ js "-" ++ take 8 (randomUUID env) in
  fst (executeItem (with_destroy env d) functionId code functionName itemHex
         timeoutSeconds)
  = fst (executeItem env functionId code functionName itemHex timeoutSeconds)
  /\ snd (executeItem (with_destroy env d) functionId code functionName
            itemHex timeoutSeconds)
     = [EvCreateCodeContext id;
        EvRunCode id (executionCode_item code functionName itemHex)
          (timeoutSeconds * 1000);
        EvDestroy id]
       ++ match d with
          | Resolved _ => []
          | Rejected err =>
              [EvConsoleError
                 (js "Failed to destroy sandbox " ++ id ++ js ":") err]
          end.
Proof.
  intros Hready id. revert Hready.
  unfold context_ready, executeItem, with_destroy.
  cbn -[js executionCode_item app take]. fold id.
  destruct (createCodeContext (getSandbox env id)); [|discriminate].
  intros _. cbn -[js executionCode_item app take].
  split; [reflexivity|]. by destruct d.
Qed.

Lemma executeItem_teardown_witness :
  fst (executeItem
         (with_destroy (item_env w_mixed 1)
            (Rejected (ThrownError (js "destroy timed out"))))
         (js "fn") (js "def double(x): return 2 * x") (js "double")
         (js "8002") 300)
  = fst (executeItem (item_env w_mixed 1) (js "fn")
           (js "def double(x): return 2 * x") (js "double") (js "8002") 300)
  /\ snd (executeItem
            (with_destroy (item_env w_mixed 1)
               (Rejected (ThrownError (js "destroy timed out"))))
            (js "fn") (js "def double(x): return 2 * x") (js "double")
            (js "8002") 300)
     = [EvCreateCodeContext
          (js "fn" ++ js "-" ++ take 8 (randomUUID (item_env w_mixed 1)));
        EvRunCode
          (js "fn" ++ js "-" ++ take 8 (randomUUID (item_env w_mixed 1)))
          (executionCode_item (js "def double(x): return 2 * x")
             (js "double") (js "8002"))
          (300 * 1000);
        EvDestroy
          (js "fn" ++ js "-" ++ take 8 (randomUUID (item_env w_mixed 1)))]
       ++ [EvConsoleError
             (js "Failed to destroy sandbox "
              ++ (js "fn" ++ js "-"
                  ++ take 8 (randomUUID (item_env w_mixed 1)))
              ++ js ":")
             (ThrownError (js "destroy timed out"))].
Proof.
  apply (executeItem_teardown (item_env w_mixed 1)
           (Rejected (ThrownError (js "destroy timed out"))) (js "fn")
           (js "def double(x): return 2 * x") (js "double") (js "8002") 300).
  reflexivity.
Defined.

(** X5. In an outcome that [executeItem] returns, [result] is present
    exactly on success and [error] exactly on failure, and the identifier
    and the three timing fields are always present. *)
Theorem executeItem_outcome_fields (env : Env) (functionId code functionName
    itemHex : jsstring) (timeoutSeconds : Z) (o : ExecuteResponse) :
  fst (executeItem env functionId code functionName itemHex timeoutSeconds)
  = Resolved o ->
  (success o = true <-> is_Some (result o))
  /\ (success o = false <-> is_Some (error o))
  /\ sandbox_id o = Some (functionId ++ js "-" ++ take 8 (randomUUID env))
  /\ started_at o = Some (entry_iso env)
  /\ completed_at o = Some (exit_iso env)
  /\ execution_time_ms o = Some (exit_now env - entry_now env).
Proof.
  unfold executeItem.
  destruct (createCodeContext _); [|discriminate]. simpl.
  destruct (runCode _ _ _) as [res|err].
  - destruct (truthy_str (SandboxResult.error res)) eqn:Herr.
    + intros [= <-]. simpl. repeat split; try discriminate; eauto.
      * by intros [x Hx].
      * intros _. destruct (SandboxResult.error res); [eauto|discriminate].
    + destruct (includes (stderr_of res) FLARE_ERROR).
      * intros [= <-]. simpl. repeat split; try discriminate; eauto.
        by intros [x Hx].
      * destruct (match_sentinel FLARE_RESULT (stdout_of res));
          intros [= <-]; simpl; repeat split; try discriminate; eauto;
          by intros [x Hx].
  - intros [= <-]. simpl. repeat split; try discriminate; eauto.
    by intros [x Hx].
Qed.

Lemma executeItem_outcome_fields_witness :
  exists o,
    fst (executeItem (item_env w_mixed 3) (js "fn")
           (js "def double(x): return 2 * x") (js "double") (js "8004") 300)
    = Resolved o
    /\ (success o = true <-> is_Some (result o))
    /\ (success o = false <-> is_Some (error o))
    /\ sandbox_id o
       = Some (js "fn" ++ js "-" ++ take 8 (randomUUID (item_env w_mixed 3)))
    /\ started_at o = Some (entry_iso (item_env w_mixed 3))
    /\ completed_at o = Some (exit_iso (item_env w_mixed 3))
    /\ execution_time_ms o
       = Some (exit_now (item_env w_mixed 3) - entry_now (item_env w_mixed 3)).
Proof.
  eexists. split; [reflexivity|].
  apply (executeItem_outcome_fields (item_env w_mixed 3) (js "fn")
           (js "def double(x): return 2 * x") (js "double") (js "8004") 300).
  reflexivity.
Defined.

(** ** The batch route *)

(** The statuses of [handleExecuteBatch] and what each goes with. *)
Lemma handleExecuteBatch_shape (fuel : nat) (w : World)
    (request : option ExecuteBatchRequest.t) (r : Response)
    (traces : list (list Event)) :
  handleExecuteBatch fuel w request = Some (r, traces) ->
  (status r = 200 /\ exists b, body r = BodyBatch b)
  \/ (status r = 400 /\ traces = []
      /\ exists o, body r = BodyExecute o /\ success o = false)
  \/ (status r = 500
      /\ exists o, body r = BodyExecute o /\ success o = false).
Proof.
  intros H. unfold handleExecuteBatch in H. branches H;
    try discriminate; injection H as <- <-; simpl; eauto 8.
Qed.

(** X6. Whenever [handleExecuteBatch] answers, the status is 200 exactly
    when the body is a batch body, and 400 exactly when the request body
    could not be parsed or lacks a non-empty [function_id], [code] or
    [function_name] or has no [items]; every other answer is a 500 with
    [success: false], and a 400 is sent before any sandbox call. *)
Theorem handleExecuteBatch_status (fuel : nat) (w : World)
    (request : option ExecuteBatchRequest.t) (r : Response)
    (traces : list (list Event)) :
  handleExecuteBatch fuel w request = Some (r, traces) ->
  (status r = 200 <-> exists b, body r = BodyBatch b)
  /\ (status r = 400
      <-> request = None
          \/ exists b,
               request = Some b
               /\ (truthy_str (ExecuteBatchRequest.function_id b)
                   && truthy_str (ExecuteBatchRequest.code b)
                   && truthy_str (ExecuteBatchRequest.function_name b)
                   && truthy_arr (ExecuteBatchRequest.items b))%bool = false)
  /\ (status r = 400 -> traces = [])
  /\ (status r <> 200 ->
      exists o, body r = BodyExecute o /\ success o = false
                /\ (status r = 400 \/ status r = 500)).
Proof.
  intros H. unfold handleExecuteBatch in H.
  destruct request as [b|].
  - destruct (truthy_str (ExecuteBatchRequest.function_id b)) eqn:Hf;
      destruct (truthy_str (ExecuteBatchRequest.code b)) eqn:Hc;
      destruct (truthy_str (ExecuteBatchRequest.function_name b)) eqn:Hn;
      destruct (truthy_arr (ExecuteBatchRequest.items b)) eqn:Hi;
      cbn [negb orb andb] in H; branches H; try discriminate;
      injection H as <- <-; simpl;
      repeat split; try discriminate; try lia; try congruence; eauto;
      try (by intros [x Hx]);
      try (intros [Hnone|(b' & Hsome & Hb)];
           [discriminate
           |injection Hsome as <-; rewrite Hf, Hc, Hn, Hi in Hb;
            discriminate]);
      try (intros _; right; exists b; split; [reflexivity|];
           by rewrite Hf, Hc, Hn, Hi).
  - injection H as <- <-. simpl.
    repeat split; try discriminate; try lia; eauto. by intros [x Hx].
Qed.

Lemma handleExecuteBatch_status_witness :
  exists r traces,
    handleExecuteBatch 4 w_no_context (Some (req_three None))
    = Some (r, traces)
    /\ (status r = 200 <-> exists b, body r = BodyBatch b)
    /\ (status r = 400
        <-> Some (req_three None) = None
            \/ exists b,
                 Some (req_three None) = Some b
                 /\ (truthy_str (ExecuteBatchRequest.function_id b)
                     && truthy_str (ExecuteBatchRequest.code b)
                     && truthy_str (ExecuteBatchRequest.function_name b)
                     && truthy_arr (ExecuteBatchRequest.items b))%bool
                    = false)
    /\ (status r = 400 -> traces = [])
    /\ (status r <> 200 ->
        exists o, body r = BodyExecute o /\ success o = false
                  /\ (status r = 400 \/ status r = 500)).
Proof.
  eexists _, _. split; [vm_compute; reflexivity|].
  eapply (handleExecuteBatch_status 4 w_no_context (Some (req_three None))).
  vm_compute. reflexivity.
Defined.

(** X7. With the required fields present and an empty [items] array, the
    batch is answered at once with status 200, no results and zero rounds,
    for every [max_containers], negative ones included, and no sandbox is
    touched. *)
Theorem handleExecuteBatch_empty_items (fuel : nat) (w : World)
    (function_id code function_name : jsstring) (mc tmo : option Z) :
  function_id <> [] -> code <> [] -> function_name <> [] ->
  fuel <> 0%nat ->
  handleExecuteBatch fuel w
    (Some (batch_request function_id code function_name [] mc tmo))
  = Some ({| status := 200;
             body := BodyBatch
               {| results := [];
                  total_execution_time_ms :=
                    batch_exit_now w - batch_entry_now w;
                  batch_count := 0;
                  max_containers := or_default mc 10 |} |}, []).
Proof.
  intros Hf Hc Hn Hfuel. unfold handleExecuteBatch, batch_request.
  cbn [ExecuteBatchRequest.function_id ExecuteBatchRequest.code
       ExecuteBatchRequest.function_name ExecuteBatchRequest.items
       ExecuteBatchRequest.max_containers ExecuteBatchRequest.timeout].
  rewrite !truthy_nonempty by assumption.
  cbn [truthy_arr negb orb default from_option id].
  destruct fuel as [|fuel]; [congruence|]. reflexivity.
Qed.

Lemma handleExecuteBatch_empty_items_witness :
  handleExecuteBatch 1 w_no_context
    (Some (batch_request (js "fn") (js "def double(x): return 2 * x")
             (js "double") [] (Some (-3)) None))
  = Some ({| status := 200;
             body := BodyBatch
               {| results := [];
                  total_execution_time_ms :=
                    batch_exit_now w_no_context - batch_entry_now w_no_context;
                  batch_count := 0;
                  max_containers := or_default (Some (-3)) 10 |} |}, []).
Proof.
  apply (handleExecuteBatch_empty_items 1 w_no_context (js "fn")
           (js "def double(x): return 2 * x") (js "double") (Some (-3)) None);
    discriminate.
Defined.

Lemma handleExecuteBatch_negative_cap_witness :
  handleExecuteBatch 1000 w_mixed
    (Some (batch_request (js "fn") (js "def double(x): return 2 * x")
             (js "double") items3 (Some (-1)) None))
  = None.
Proof.
  apply (handleExecuteBatch_negative_cap 1000 w_mixed (js "fn")
           (js "def double(x): return 2 * x") (js "double") items3 (-1) None).
  - discriminate.
  - discriminate.
  - discriminate.
  - discriminate.
  - lia.
Defined.

(** X9. A well-formed batch with cap [C >= 1] is answered with status 200
    exactly when every item obtains its execution context, and with status
    500 otherwise: nothing else an item does, failing included, changes the
    status. *)
Theorem handleExecuteBatch_ok_iff (fuel : nat) (w : World)
    (function_id code function_name : jsstring) (items : list jsstring)
    (mc tmo : option Z) :
  function_id <> [] -> code <> [] -> function_name <> [] ->
  1 <= or_default mc 10 ->
  (length items < fuel)%nat ->
  exists r traces,
    handleExecuteBatch fuel w
      (Some (batch_request function_id code function_name items mc tmo))
    = Some (r, traces)
    /\ (status r = 200
        <-> forall k, (k < length items)%nat ->
                      context_ready (item_env w k) function_id = true)
    /\ (status r = 200 \/ status r = 500).
Proof.
  intros Hf Hc Hn Hcap Hfuel.
  destruct (chunk_spec items (or_default mc 10) Hcap fuel Hfuel)
    as (batches & Hchunk & Hcat & _).
  unfold handleExecuteBatch, batch_request.
  cbn [ExecuteBatchRequest.function_id ExecuteBatchRequest.code
       ExecuteBatchRequest.function_name ExecuteBatchRequest.items
       ExecuteBatchRequest.max_containers ExecuteBatchRequest.timeout].
  rewrite !truthy_nonempty by assumption.
  cbn [truthy_arr negb orb default from_option id].
  rewrite Hchunk.
  destruct (run_batches w function_id code function_name (or_default tmo 300)
              batches 0 0 [] []) as [[rs|err] tr] eqn:Hrun.
  - eexists _, _. split; [reflexivity|]. simpl. split; [|auto].
    split; [|reflexivity]. intros _ k Hk.
    apply run_batches_inv in Hrun. rewrite Hcat in Hrun.
    destruct (lookup_lt_is_Some_2 items k Hk) as [item Hitem].
    destruct (completed_lookup w function_id code function_name
                (or_default tmo 300) items k item Hrun Hitem)
      as (o & Hfst & _).
    by apply executeItem_resolved_ready in Hfst.
  - eexists _, _. split; [reflexivity|]. simpl. split; [|auto].
    split; [discriminate|]. intros Hready. exfalso.
    rewrite run_batches_resolved in Hrun; [discriminate|].
    rewrite Hcat. by apply run_all_no_rejection.
Qed.

Lemma handleExecuteBatch_ok_iff_witness :
  exists r traces,
    handleExecuteBatch 4 w_no_context (Some (req_three (Some 2)))
    = Some (r, traces)
    /\ (status r = 200
        <-> forall k, (k < length items3)%nat ->
                      context_ready (item_env w_no_context k) (js "fn") = true)
    /\ (status r = 200 \/ status r = 500).
Proof.
  apply (handleExecuteBatch_ok_iff 4 w_no_context (js "fn")
           (js "def double(x): return 2 * x") (js "double") items3 (Some 2)
           None).
  - discriminate.
  - discriminate.
  - discriminate.
  - simpl. lia.
  - simpl. lia.
Defined.

(** A round with a rejection ends the loop: the rounds before it have run,
    the items of that round were started, and nothing after it. *)
Lemma run_batches_stops (w : World) (function_id code function_name : jsstring)
    (timeout : Z) (pre : list (list jsstring)) (bad : list jsstring)
    (post : list (list jsstring)) :
  forall (round k : nat) (allResults : list ExecuteResponse)
         (traces : list (list Event)),
    rejections
      (List.map fst
         (run_all w function_id code function_name timeout k (concat pre)))
    = [] ->
    rejections
      (List.map fst
         (run_all w function_id code function_name timeout
            (k + length (concat pre)) bad)) <> [] ->
    exists t,
      run_batches w function_id code function_name timeout
        (pre ++ bad :: post) round k allResults traces
      = (Rejected t,
         traces
         ++ List.map snd
              (run_all w function_id code function_name timeout k
                 (concat pre ++ bad)))
      /\ In t (rejections
                 (List.map fst
                    (run_all w function_id code function_name timeout
                       (k + length (concat pre)) bad))).
Proof.
  induction pre as [|batch pre IH]; intros round k allResults traces Hpre Hbad.
  - simpl in *. rewrite Nat.add_0_r in Hbad |- *.
    fold (run_all w function_id code function_name timeout k bad).
    unfold promise_all.
    destruct (rejections
                (List.map fst
                   (run_all w function_id code function_name timeout k bad)))
      as [|t ts] eqn:Hrej; [congruence|].
    exists (nth (first_rejection w round) (t :: ts) t). split; [reflexivity|].
    destruct (Nat.lt_ge_cases (first_rejection w round) (length (t :: ts))).
    + by apply nth_In.
    + rewrite nth_overflow by assumption. by left.
  - simpl concat in *. rewrite run_all_app, List.map_app, rejections_app in Hpre.
    apply app_eq_nil in Hpre as [Hbatch Hpre].
    rewrite length_app, Nat.add_assoc in Hbad.
    destruct (IH (S round) (k + length batch)%nat
                (allResults
                 ++ resolutions
                      (List.map fst
                         (run_all w function_id code function_name timeout k
                            batch)))
                (traces
                 ++ List.map snd
                      (run_all w function_id code function_name timeout k
                         batch)) Hpre Hbad) as (t & Hrun & Hin).
    exists t. split.
    + simpl. fold (run_all w function_id code function_name timeout k batch).
      unfold promise_all. rewrite Hbatch, Hrun.
      f_equal.
      rewrite <- (app_assoc batch).
      rewrite !run_all_app, !List.map_app, <- !app_assoc. reflexivity.
    + rewrite length_app, Nat.add_assoc. exact Hin.
Qed.

Lemma rejections_In {A} (ps : list (Settled A)) (t : Thrown) :
  In t (rejections ps) -> exists j, ps !! j = Some (Rejected t).
Proof.
  induction ps as [|[a|t'] ps IH]; simpl; [tauto| |].
  - intros H. destruct (IH H) as [j Hj]. by exists (S j).
  - intros [->|H]; [by exists O|].
    destruct (IH H) as [j Hj]. by exists (S j).
Qed.

(** X10. When the rounds of a well-formed batch are [pre], then [bad], then
    [post], every item of [pre] obtains its context and some item of [bad]
    does not, the answer is a 500 whose error is the message of a context
    creation that was rejected in [bad]; the items of [pre] and of [bad]
    were started and no item of [post] ever is. *)
Theorem handleExecuteBatch_stops_at_failed_round (fuel : nat) (w : World)
    (function_id code function_name : jsstring) (items : list jsstring)
    (mc tmo : option Z) (pre : list (list jsstring)) (bad : list jsstring)
    (post : list (list jsstring)) (k : nat) :
  function_id <> [] -> code <> [] -> function_name <> [] ->
  chunk fuel items (or_default mc 10) = Some (pre ++ bad :: post) ->
  (forall j, (j < length (concat pre))%nat ->
             context_ready (item_env w j) function_id = true) ->
  (length (concat pre) <= k < length (concat pre) + length bad)%nat ->
  context_ready (item_env w k) function_id = false ->
  exists t k' traces,
    handleExecuteBatch fuel w
      (Some (batch_request function_id code function_name items mc tmo))
    = Some ({| status := 500;
               body := BodyExecute
                         (bare_failure
                            (message_or t (js "Batch execution failed"))) |},
            traces)
    /\ length traces = (length (concat pre) + length bad)%nat
    /\ (length (concat pre) <= k' < length (concat pre) + length bad)%nat
    /\ createCodeContext
         (getSandbox (item_env w k')
            (function_id ++ js "-" ++ take 8 (randomUUID (item_env w k'))))
       = Rejected t.
Proof.
  intros Hf Hc Hn Hchunk Hpre Hk Hbad.
  assert (rejections
            (List.map fst
               (run_all w function_id code function_name (or_default tmo 300)
                  0 (concat pre))) = []) as Hpre'.
  { apply run_all_no_rejection. intros j Hj. by apply Hpre. }
  assert (rejections
            (List.map fst
               (run_all w function_id code function_name (or_default tmo 300)
                  (0 + length (concat pre)) bad)) <> []) as Hbad'.
  { intros Hnone.
    assert (exists item, bad !! (k - length (concat pre))%nat = Some item)
      as [item Hitem] by (apply lookup_lt_is_Some_2; lia).
    pose proof (run_all_lookup w function_id code function_name
                  (or_default tmo 300) (0 + length (concat pre))
                  (k - length (concat pre)) bad item Hitem) as Hcall.
    replace (0 + length (concat pre) + (k - length (concat pre)))%nat with k
      in Hcall by lia.
    destruct (fst (executeItem (item_env w k) function_id code function_name
                     item (or_default tmo 300))) as [o|t] eqn:Hfst.
    - apply executeItem_resolved_ready in Hfst. congruence.
    - assert (In (Rejected t)
                (List.map fst
                   (run_all w function_id code function_name
                      (or_default tmo 300) (0 + length (concat pre)) bad)))
        as Hin.
      { apply in_map_iff. eexists. split; [|eapply list_elem_of_In,
                                              list_elem_of_lookup_2, Hcall].
        exact Hfst. }
      clear -Hin Hnone. revert Hin Hnone.
      generalize (List.map fst
                    (run_all w function_id code function_name
                       (or_default tmo 300) (0 + length (concat pre)) bad)).
      intros ps. induction ps as [|[a|t'] ps IH]; simpl; try tauto;
        try discriminate.
      intros [Heq|Hin] Hnone; [discriminate|]. by apply IH. }
  destruct (run_batches_stops w function_id code function_name
              (or_default tmo 300) pre bad post 0 0 [] [] Hpre' Hbad')
    as (t & Hrun & Hin).
  apply rejections_In in Hin as [j Hj].
  change (List.map fst ?l) with (fst <$> l) in Hj.
  rewrite list_lookup_fmap in Hj.
  destruct (bad !! j) as [item|] eqn:Hitem.
  2:{ apply lookup_ge_None in Hitem.
      rewrite lookup_ge_None_2 in Hj; [discriminate|].
      rewrite run_all_length. lia. }
  rewrite (run_all_lookup _ _ _ _ _ _ _ _ _ Hitem) in Hj. simpl in Hj.
  injection Hj as Hj.
  exists t, (length (concat pre) + j)%nat. eexists. repeat split.
  - unfold handleExecuteBatch, batch_request.
    cbn [ExecuteBatchRequest.function_id ExecuteBatchRequest.code
         ExecuteBatchRequest.function_name ExecuteBatchRequest.items
         ExecuteBatchRequest.max_containers ExecuteBatchRequest.timeout].
    rewrite !truthy_nonempty by assumption.
    cbn [truthy_arr negb orb default from_option id].
    rewrite Hchunk, Hrun. reflexivity.
  - simpl. rewrite length_map, run_all_length, length_app. reflexivity.
  - lia.
  - apply lookup_lt_Some in Hitem. lia.
  - unfold executeItem in Hj.
    destruct (createCodeContext _) eqn:Hctx; [discriminate|].
    simpl in Hj. congruence.
Qed.

Lemma handleExecuteBatch_stops_at_failed_round_witness :
  exists t k' traces,
    handleExecuteBatch 4 w_no_context (Some (req_three (Some 1)))
    = Some ({| status := 500;
               body := BodyExecute
                         (bare_failure
                            (message_or t (js "Batch execution failed"))) |},
            traces)
    /\ length traces = (length (concat [[js "8001"]]) + length [js "8002"])%nat
    /\ (length (concat [[js "8001"]]) <= k'
        < length (concat [[js "8001"]]) + length [js "8002"])%nat
    /\ createCodeContext
         (getSandbox (item_env w_no_context k')
            (js "fn" ++ js "-"
             ++ take 8 (randomUUID (item_env w_no_context k'))))
       = Rejected t.
Proof.
  apply (handleExecuteBatch_stops_at_failed_round 4 w_no_context (js "fn")
           (js "def double(x): return 2 * x") (js "double") items3 (Some 1)
           None [[js "8001"]] [js "8002"] [[js "8003"]] 1).
  - discriminate.
  - discriminate.
  - discriminate.
  - reflexivity.
  - intros j Hj. destruct j as [|j]; [reflexivity|]. simpl in Hj. lia.
  - simpl. lia.
  - reflexivity.
Defined.

Lemma handleExecuteBatch_traces (fuel : nat) (w : World)
    (function_id code function_name : jsstring) (items : list jsstring)
    (mc tmo : option Z) (st : Z) (b : ExecuteBatchResponse)
    (traces : list (list Event)) :
  function_id <> [] -> code <> [] -> function_name <> [] ->
  1 <= or_default mc 10 ->
  (length items < fuel)%nat ->
  handleExecuteBatch fuel w
    (Some (batch_request function_id code function_name items mc tmo))
  = Some ({| status := st; body := BodyBatch b |}, traces) ->
  rejections
    (List.map fst
       (run_all w function_id code function_name (or_default tmo 300) 0
          items)) = []
  /\ traces
     = List.map snd
         (run_all w function_id code function_name (or_default tmo 300) 0
            items).
Proof.
  intros Hf Hc Hn Hcap Hfuel.
  destruct (chunk_spec items (or_default mc 10) Hcap fuel Hfuel)
    as (batches & Hchunk & Hcat & _).
  unfold handleExecuteBatch, batch_request.
  cbn [ExecuteBatchRequest.function_id ExecuteBatchRequest.code
       ExecuteBatchRequest.function_name ExecuteBatchRequest.items
       ExecuteBatchRequest.max_containers ExecuteBatchRequest.timeout].
  rewrite !truthy_nonempty by assumption.
  cbn [truthy_arr negb orb default from_option id].
  rewrite Hchunk.
  destruct (run_batches w function_id code function_name (or_default tmo 300)
              batches 0 0 [] []) as [[rs|err] tr] eqn:Hrun; [|discriminate].
  pose proof Hrun as Hrej. apply run_batches_inv in Hrej.
  rewrite run_batches_resolved in Hrun by assumption.
  rewrite Hcat in Hrej, Hrun. injection Hrun as <- <-.
  intros [= <- <-]. auto.
Qed.

(** X11. In every batch that returns its results, item [i] ran the script
    built from its own payload, with the timeout of the request in
    milliseconds (300 seconds when the request gives none or zero), in the
    sandbox named after its own UUID draw, and that sandbox was destroyed
    after the run. *)
Theorem handleExecuteBatch_item_lifecycle (fuel : nat) (w : World)
    (function_id code function_name : jsstring) (items : list jsstring)
    (mc tmo : option Z) (st : Z) (b : ExecuteBatchResponse)
    (traces : list (list Event)) :
  function_id <> [] -> code <> [] -> function_name <> [] ->
  1 <= or_default mc 10 ->
  (length items < fuel)%nat ->
  handleExecuteBatch fuel w
    (Some (batch_request function_id code function_name items mc tmo))
  = Some ({| status := st; body := BodyBatch b |}, traces) ->
  length traces = length items
  /\ forall i item,
       items !! i = Some item ->
       exists tail,
         traces !! i
         = Some ([EvCreateCodeContext
                    (function_id ++ js "-"
                     ++ take 8 (randomUUID (item_env w i)));
                  EvRunCode
                    (function_id ++ js "-"
                     ++ take 8 (randomUUID (item_env w i)))
                    (executionCode_item code function_name item)
                    (or_default tmo 300 * 1000);
                  EvDestroy
                    (function_id ++ js "-"
                     ++ take 8 (randomUUID (item_env w i)))] ++ tail)
         /\ destroy_calls tail = 0%nat.
Proof.
  intros Hf Hc Hn Hcap Hfuel Hrun.
  destruct (handleExecuteBatch_traces fuel w function_id code function_name
              items mc tmo st b traces Hf Hc Hn Hcap Hfuel Hrun)
    as [Hrej ->].
  split; [by rewrite length_map, run_all_length|].
  intros i item Hitem.
  destruct (completed_lookup w function_id code function_name
              (or_default tmo 300) items i item Hrej Hitem)
    as (o & Hfst & _).
  apply executeItem_resolved_ready in Hfst.
  destruct (executeItem_trace_shape (item_env w i) function_id code
              function_name item (or_default tmo 300) Hfst)
    as (tail & Htrace & Htail).
  exists tail. split; [|exact Htail].
  change (List.map snd ?l) with (snd <$> l).
  rewrite list_lookup_fmap.
  rewrite (run_all_lookup w function_id code function_name
             (or_default tmo 300) 0 i items item Hitem).
  simpl. by rewrite Htrace.
Qed.

Lemma handleExecuteBatch_item_lifecycle_witness :
  exists traces,
    option_map snd (handleExecuteBatch 6 w_mixed (Some req_mixed))
    = Some traces
    /\ length traces = length items5
    /\ forall i item,
         items5 !! i = Some item ->
         exists tail,
           traces !! i
           = Some ([EvCreateCodeContext
                      (js "fn" ++ js "-"
                       ++ take 8 (randomUUID (item_env w_mixed i)));
                    EvRunCode
                      (js "fn" ++ js "-"
                       ++ take 8 (randomUUID (item_env w_mixed i)))
                      (executionCode_item (js "def double(x): return 2 * x")
                         (js "double") item)
                      (or_default None 300 * 1000);
                    EvDestroy
                      (js "fn" ++ js "-"
                       ++ take 8 (randomUUID (item_env w_mixed i)))] ++ tail)
           /\ destroy_calls tail = 0%nat.
Proof.
  eexists. split; [vm_compute; reflexivity|].
  eapply (handleExecuteBatch_item_lifecycle 6 w_mixed (js "fn")
            (js "def double(x): return 2 * x") (js "double") items5 (Some 2)
            None 200).
  - discriminate.
  - discriminate.
  - discriminate.
  - simpl. lia.
  - simpl. lia.
  - vm_compute. reflexivity.
Defined.

(** ** More on [chunk] *)

(** Bounds of the rounds on integers. For an integer size of at least one,
    no round of [chunk] is empty and none has more than [size] items; an
    array that fits into one round makes exactly that round, and the empty
    array makes none. *)
Lemma chunk_round_bounds_integer {T} (array : list T) (size : Z)
    (fuel : nat) :
  1 <= size ->
  (length array < fuel)%nat ->
  exists batches,
    chunk fuel array size = Some batches
    /\ (forall r round,
          batches !! r = Some round ->
          1 <= Z.of_nat (length round) <= size)
    /\ (array <> [] -> Z.of_nat (length array) <= size -> batches = [array])
    /\ (array = [] -> batches = []).
Proof.
  intros Hsize Hfuel.
  destruct (chunk_spec array size Hsize fuel Hfuel)
    as (batches & Hchunk & Hcat & Hlen & Hwin).
  exists batches. split; [assumption|]. unfold ceil_div in Hlen.
  pose proof (Z.div_mod (Z.of_nat (length array) + size - 1) size
                ltac:(lia)) as Hdm.
  pose proof (Z.mod_pos_bound (Z.of_nat (length array) + size - 1) size
                ltac:(lia)) as Hmod.
  split; [|split].
  - intros r round H.
    pose proof (lookup_lt_Some _ _ _ H) as Hr.
    rewrite (Hwin r Hr) in H. injection H as <-.
    rewrite length_take, length_drop. split; [nia|lia].
  - intros Hne Hfit.
    assert (length array <> 0)%nat by (by destruct array).
    assert (length batches = 1)%nat as Hone by nia.
    destruct batches as [|x [|y rest]]; try discriminate.
    specialize (Hwin O ltac:(simpl; lia)).
    replace (Z.to_nat (Z.of_nat 0 * size)) with O in Hwin by lia.
    rewrite drop_0, take_ge in Hwin by lia. simpl in Hwin. congruence.
  - intros ->. simpl in *. destruct batches; [reflexivity|]. simpl in Hlen.
    nia.
Qed.

(** X12. For a size that is an integer of at least one, no round of
    [chunk] is empty and none has more than [size] items; an array that
    fits into one round makes exactly that round, and the empty array makes
    none. The size has to be an integer: at two and a half, five items
    make a round of two and a round of three. *)
Theorem chunk_number_round_bounds {T} (array : list T) (size : Q) (c : Z)
    (fuel : nat) :
  Qeq size (inject_Z c) ->
  1 <= c ->
  (length array < fuel)%nat ->
  (exists batches,
     chunk_number fuel array size = Some batches
     /\ (forall r round,
           batches !! r = Some round ->
           1 <= Z.of_nat (length round) <= c)
     /\ (array <> [] -> Z.of_nat (length array) <= c -> batches = [array])
     /\ (array = [] -> batches = []))
  /\ chunk_number 6 [1; 2; 3; 4; 5] (5 # 2)%Q = Some [[1; 2]; [3; 4; 5]].
Proof.
  intros Hq Hsize Hfuel. split; [|reflexivity].
  rewrite (chunk_number_integer array size c fuel Hq).
  by apply chunk_round_bounds_integer.
Qed.

Lemma chunk_number_round_bounds_witness :
  (exists batches,
     chunk_number 6 items5 (4 # 2)%Q = Some batches
     /\ (forall r round,
           batches !! r = Some round ->
           1 <= Z.of_nat (length round) <= 2)
     /\ (items5 <> [] -> Z.of_nat (length items5) <= 2 -> batches = [items5])
     /\ (items5 = [] -> batches = []))
  /\ chunk_number 6 [1; 2; 3; 4; 5] (5 # 2)%Q = Some [[1; 2]; [3; 4; 5]].
Proof.
  apply (chunk_number_round_bounds items5 (4 # 2)%Q 2 6).
  - reflexivity.
  - lia.
  - simpl. lia.
Defined.

(** ** The sentinel protocol *)

(** X13. The regular expression of the handlers finds a match exactly in a
    text that holds the marker, then some text free of line terminators
    (LF, CR, U+2028, U+2029), then the marker again. *)
Theorem match_sentinel_iff (marker s : jsstring) :
  is_Some (match_sentinel marker s)
  <-> exists pre g post,
        s = pre ++ marker ++ g ++ marker ++ post /\ one_line g = true.
Proof.
  split.
  - intros [g Hg]. apply match_sentinel_sound in Hg as (pre & post & Hs & Hl).
    by exists pre, g, post.
  - intros (pre & g & post & -> & Hl). by apply match_sentinel_complete.
Qed.

(** A line that is exactly marker, text, marker yields the text, when no
    earlier line holds the marker. *)
Lemma match_sentinel_exact_line (marker pre g post : jsstring) :
  one_line marker = true ->
  includes (drop 1 marker) marker = false ->
  ends_line pre = true -> includes pre marker = false ->
  one_line g = true -> starts_line post = true ->
  match_sentinel marker (pre ++ marker ++ g ++ marker ++ post) = Some g.
Proof.
  intros Hm Hself Hend Hpre Hg Hpost.
  pose proof (match_sentinel_line marker pre g [] post Hm Hend Hpre Hg
                eq_refl) as H.
  rewrite app_nil_r in H. simpl in H. by apply H.
Qed.

(** X14. Round trip of a result. When the runtime reports no error, stderr
    is free of the error token, and stdout has a line that reads result
    marker, [g], result marker, with no result marker on the lines before
    it, the item succeeds with result [g] (status 200 in [handleExecute]),
    whatever else stdout holds before and after that line. *)
Theorem result_round_trip :
  (forall (env : Env) (functionId code functionName itemHex : jsstring)
          (timeoutSeconds : Z) (res : SandboxResult.t)
          (pre g post : jsstring),
     createCodeContext
       (getSandbox env (functionId ++ js "-" ++ take 8 (randomUUID env)))
     = Resolved tt ->
     runCode
       (getSandbox env (functionId ++ js "-" ++ take 8 (randomUUID env)))
       (executionCode_item code functionName itemHex) (timeoutSeconds * 1000)
     = Resolved res ->
     truthy_str (SandboxResult.error res) = false ->
     includes (stderr_of res) FLARE_ERROR = false ->
     stdout_of res = pre ++ FLARE_RESULT ++ g ++ FLARE_RESULT ++ post ->
     ends_line pre = true -> includes pre FLARE_RESULT = false ->
     one_line g = true -> starts_line post = true ->
     exists o,
       fst (executeItem env functionId code functionName itemHex
              timeoutSeconds) = Resolved o
       /\ success o = true /\ result o = Some g /\ error o = None)
  /\ (forall (env : Env) (function_id code function_name : jsstring)
             (args kwargs : option jsstring) (tmo : option Z)
             (res : SandboxResult.t) (pre g post : jsstring),
        function_id <> [] -> code <> [] -> function_name <> [] ->
        createCodeContext (getSandbox env (idFromName env function_id))
        = Resolved tt ->
        runCode (getSandbox env (idFromName env function_id))
          (executionCode_single code function_name (default [] args)
             (default [] kwargs))
          (or_default tmo 300 * 1000) = Resolved res ->
        truthy_str (SandboxResult.error res) = false ->
        includes (stderr_of res) FLARE_ERROR = false ->
        stdout_of res = pre ++ FLARE_RESULT ++ g ++ FLARE_RESULT ++ post ->
        ends_line pre = true -> includes pre FLARE_RESULT = false ->
        one_line g = true -> starts_line post = true ->
        exists o,
          fst (handleExecute env
                 (Some (single_request function_id code function_name args
                          kwargs tmo)))
          = {| status := 200; body := BodyExecute o |}
          /\ success o = true /\ result o = Some g /\ error o = None).
Proof.
  split.
  - intros env functionId code functionName itemHex timeoutSeconds res
      pre g post Hctx Hrun Herr Hinc Hshape Hend Hpre Hg Hpost.
    destruct (executeItem_decode env functionId code functionName itemHex
                timeoutSeconds res Hctx Hrun) as (o & Ho & _ & _ & _ & Hok).
    exists o. split; [exact Ho|]. apply Hok; try assumption.
    rewrite Hshape. by apply match_sentinel_exact_line.
  - intros env function_id code function_name args kwargs tmo res
      pre g post Hf Hc Hn Hctx Hrun Herr Hinc Hshape Hend Hpre Hg Hpost.
    destruct (handleExecute_decode env function_id code function_name args
                kwargs tmo res Hf Hc Hn Hctx Hrun)
      as (st & o & Ho & Hst & _ & _ & _ & Hok).
    assert (match_sentinel FLARE_RESULT (stdout_of res) = Some g) as Hmatch.
    { rewrite Hshape. by apply match_sentinel_exact_line. }
    destruct (Hok g Herr Hinc Hmatch) as (Hs & Hr & He).
    exists o. rewrite Ho, Hst, Hs. auto.
Qed.

Lemma result_round_trip_witness :
  exists o,
    fst (executeItem (env_res res_result_line) (js "fn")
           (js "def double(x): return 2 * x") (js "double") (js "8002") 300)
    = Resolved o
    /\ success o = true /\ result o = Some (js "8004") /\ error o = None.
Proof.
  apply (proj1 result_round_trip (env_res res_result_line) (js "fn")
           (js "def double(x): return 2 * x") (js "double") (js "8002") 300
           res_result_line (js "starting" ++ newline) (js "8004")
           (newline ++ js "done"));
    reflexivity.
Defined.

(** X15. Round trip of an error. When the runtime reports no error and
    stderr has a line that reads error marker, [msg], error marker, with no
    error marker on the lines before it, the item fails with error [msg]
    (status 500 in [handleExecute]); [msg] may be any text free of line
    terminators, the marker itself included. *)
Theorem error_round_trip :
  (forall (env : Env) (functionId code functionName itemHex : jsstring)
          (timeoutSeconds : Z) (res : SandboxResult.t)
          (pre msg post : jsstring),
     createCodeContext
       (getSandbox env (functionId ++ js "-" ++ take 8 (randomUUID env)))
     = Resolved tt ->
     runCode
       (getSandbox env (functionId ++ js "-" ++ take 8 (randomUUID env)))
       (executionCode_item code functionName itemHex) (timeoutSeconds * 1000)
     = Resolved res ->
     truthy_str (SandboxResult.error res) = false ->
     stderr_of res = pre ++ FLARE_ERROR ++ msg ++ FLARE_ERROR ++ post ->
     ends_line pre = true -> includes pre FLARE_ERROR = false ->
     one_line msg = true -> starts_line post = true ->
     exists o,
       fst (executeItem env functionId code functionName itemHex
              timeoutSeconds) = Resolved o
       /\ success o = false /\ error o = Some msg /\ result o = None)
  /\ (forall (env : Env) (function_id code function_name : jsstring)
             (args kwargs : option jsstring) (tmo : option Z)
             (res : SandboxResult.t) (pre msg post : jsstring),
        function_id <> [] -> code <> [] -> function_name <> [] ->
        createCodeContext (getSandbox env (idFromName env function_id))
        = Resolved tt ->
        runCode (getSandbox env (idFromName env function_id))
          (executionCode_single code function_name (default [] args)
             (default [] kwargs))
          (or_default tmo 300 * 1000) = Resolved res ->
        truthy_str (SandboxResult.error res) = false ->
        stderr_of res = pre ++ FLARE_ERROR ++ msg ++ FLARE_ERROR ++ post ->
        ends_line pre = true -> includes pre FLARE_ERROR = false ->
        one_line msg = true -> starts_line post = true ->
        exists o,
          fst (handleExecute env
                 (Some (single_request function_id code function_name args
                          kwargs tmo)))
          = {| status := 500; body := BodyExecute o |}
          /\ success o = false /\ error o = Some msg /\ result o = None).
Proof.
  split.
  - intros env functionId code functionName itemHex timeoutSeconds res
      pre msg post Hctx Hrun Herr Hshape Hend Hpre Hmsg Hpost.
    assert (includes (stderr_of res) FLARE_ERROR = true) as Hinc
      by (rewrite Hshape; apply includes_intro).
    assert (error_message (stderr_of res) = msg) as Hm.
    { unfold error_message. rewrite Hshape.
      by rewrite match_sentinel_exact_line. }
    destruct (executeItem_decode env functionId code functionName itemHex
                timeoutSeconds res Hctx Hrun) as (o & Ho & _ & Hsent & _).
    destruct (Hsent Herr Hinc) as (Hs & He & _).
    exists o. rewrite He, Hm. repeat split; try assumption.
    unfold executeItem in Ho. rewrite Hctx, Hrun, Herr, Hinc in Ho.
    simpl in Ho. by injection Ho as <-.
  - intros env function_id code function_name args kwargs tmo res
      pre msg post Hf Hc Hn Hctx Hrun Herr Hshape Hend Hpre Hmsg Hpost.
    assert (includes (stderr_of res) FLARE_ERROR = true) as Hinc
      by (rewrite Hshape; apply includes_intro).
    assert (error_message (stderr_of res) = msg) as Hm.
    { unfold error_message. rewrite Hshape.
      by rewrite match_sentinel_exact_line. }
    destruct (handleExecute_decode env function_id code function_name args
                kwargs tmo res Hf Hc Hn Hctx Hrun)
      as (st & o & Ho & Hst & _ & Hsent & _).
    destruct (Hsent Herr Hinc) as (Hs & He & _).
    exists o. rewrite He, Hm, Ho, Hst, Hs. repeat split.
    unfold handleExecute, single_request in Ho.
    cbn [ExecuteRequest.function_id ExecuteRequest.code
         ExecuteRequest.function_name ExecuteRequest.args
         ExecuteRequest.kwargs ExecuteRequest.timeout] in Ho.
    rewrite !truthy_nonempty in Ho by assumption.
    cbn [negb orb default from_option id] in Ho.
    rewrite Hctx, Hrun, Herr, Hinc in Ho. simpl in Ho.
    by injection Ho as _ <-.
Qed.

Lemma error_round_trip_witness :
  exists o,
    fst (executeItem (env_res res_marker_in_message) (js "fn")
           (js "def double(x): return 2 * x") (js "double") (js "8002") 300)
    = Resolved o
    /\ success o = false
    /\ error o = Some (js "tag __FLARE_ERROR__ is reserved")
    /\ result o = None.
Proof.
  apply (proj1 error_round_trip (env_res res_marker_in_message) (js "fn")
           (js "def double(x): return 2 * x") (js "double") (js "8002") 300
           res_marker_in_message [] (js "tag __FLARE_ERROR__ is reserved")
           (newline ++ js "Traceback (most recent call last):"));
    reflexivity.
Defined.

(** ** The [fetch] handler *)

(** X16. Every response of the worker carries the three CORS headers, under
    whatever capitalisation they are asked for; every response but the
    answer to a preflight says its content is JSON, and the answer to a
    preflight has no body and no content type. *)
Theorem fetch_cors (fuel : nat) (env : WorkerEnv) (request : WorkerRequest)
    (response : WorkerResponse) (traces : list (list Event)) :
  fetch fuel env request = Some (response, traces) ->
  headers_get (w_headers response) (js "Access-Control-Allow-Origin")
  = Some (js "*")
  /\ headers_get (w_headers response) (js "access-control-allow-methods")
     = Some (js "POST, GET, OPTIONS")
  /\ headers_get (w_headers response) (js "ACCESS-CONTROL-ALLOW-HEADERS")
     = Some (js "Content-Type, Authorization")
  /\ (if jsstring_eqb (method request) (js "OPTIONS")
      then headers_get (w_headers response) (js "Content-Type") = None
           /\ w_body response = BodyNull /\ w_status response = 200
      else headers_get (w_headers response) (js "Content-Type")
           = Some (js "application/json")).
Proof.
  intros H. unfold fetch in H.
  destruct (jsstring_eqb (method request) (js "OPTIONS"));
    [injection H as <- <-; repeat split; vm_compute; reflexivity|].
  destruct (jsstring_eqb (pathname request) (js "/health")
            && jsstring_eqb (method request) (js "GET"))%bool;
    [injection H as <- <-; repeat split; vm_compute; reflexivity|].
  destruct (validateApiKey _ env); cbn [negb] in H;
    [|injection H as <- <-; repeat split; vm_compute; reflexivity].
  destruct (jsstring_eqb (pathname request) (js "/execute")
            && jsstring_eqb (method request) (js "POST"))%bool.
  { destruct (handleExecute_json _ _) as [[r tr]|err]; injection H as <- <-;
      repeat split; vm_compute; reflexivity. }
  destruct (jsstring_eqb (pathname request) (js "/execute-batch")
            && jsstring_eqb (method request) (js "POST"))%bool.
  { destruct (handleExecuteBatch_json _ _ _) as [[[r tr]|err]|];
      [| |discriminate]; injection H as <- <-;
      repeat split; vm_compute; reflexivity. }
  injection H as <- <-. repeat split; vm_compute; reflexivity.
Qed.

Lemma fetch_cors_witness :
  exists response,
    option_map fst
      (fetch 6 (worker_env "sk_live_1")
         (request_to "POST" "/execute-batch" "Bearer sk_live_1"))
    = Some response
    /\ headers_get (w_headers response) (js "Access-Control-Allow-Origin")
       = Some (js "*")
    /\ headers_get (w_headers response) (js "access-control-allow-methods")
       = Some (js "POST, GET, OPTIONS")
    /\ headers_get (w_headers response) (js "ACCESS-CONTROL-ALLOW-HEADERS")
       = Some (js "Content-Type, Authorization")
    /\ (if jsstring_eqb
             (method (request_to "POST" "/execute-batch" "Bearer sk_live_1"))
             (js "OPTIONS")
        then headers_get (w_headers response) (js "Content-Type") = None
             /\ w_body response = BodyNull /\ w_status response = 200
        else headers_get (w_headers response) (js "Content-Type")
             = Some (js "application/json")).
Proof.
  eexists. split; [vm_compute; reflexivity|].
  eapply (fetch_cors 6 (worker_env "sk_live_1")
            (request_to "POST" "/execute-batch" "Bearer sk_live_1")).
  vm_compute. reflexivity.
Defined.

(** X17. Without a valid key, a request that is neither a preflight nor
    [GET /health] is answered 401 with error [Unauthorized], whatever its
    path, and no sandbox call is made; a preflight and [GET /health] are
    answered 200 without any look at the key. *)
Theorem fetch_requires_key (fuel : nat) (env : WorkerEnv)
    (request : WorkerRequest) :
  validateApiKey (presented_key request) env = false ->
  exists response,
    fetch fuel env request = Some (response, [])
    /\ (if is_public request
        then w_status response = 200
        else w_status response = 401
             /\ w_body response
                = BodyJson (BodyExecute (bare_failure (js "Unauthorized")))).
Proof.
  intros Hkey. unfold fetch, is_public. fold (presented_key request).
  destruct (jsstring_eqb (method request) (js "OPTIONS")); simpl;
    [eexists; split; reflexivity|].
  destruct (jsstring_eqb (pathname request) (js "/health")
            && jsstring_eqb (method request) (js "GET"))%bool;
    [eexists; split; reflexivity|].
  rewrite Hkey. simpl. eexists. split; [reflexivity|]. simpl. auto.
Qed.

Lemma fetch_requires_key_witness :
  exists response,
    fetch 0 (worker_env "sk_live_1")
      (request_to "POST" "/execute-batch" "Bearer sk_live_2")
    = Some (response, [])
    /\ (if is_public (request_to "POST" "/execute-batch" "Bearer sk_live_2")
        then w_status response = 200
        else w_status response = 401
             /\ w_body response
                = BodyJson (BodyExecute (bare_failure (js "Unauthorized")))).
Proof.
  apply (fetch_requires_key 0 (worker_env "sk_live_1")
           (request_to "POST" "/execute-batch" "Bearer sk_live_2")).
  reflexivity.
Defined.

(** X18. The key that is configured, when it is not empty, is accepted both
    after the prefix [Bearer ] and bare (when it does not itself hold
    [Bearer ]): such a request is never answered 401. *)
Theorem fetch_accepts_key (fuel : nat) (env : WorkerEnv)
    (request : WorkerRequest) (k : jsstring) (response : WorkerResponse)
    (traces : list (list Event)) :
  k <> [] ->
  API_KEY env = Some k ->
  authorization request = Some (js "Bearer " ++ k)
  \/ (authorization request = Some k /\ includes k (js "Bearer ") = false) ->
  fetch fuel env request = Some (response, traces) ->
  validateApiKey (presented_key request) env = true
  /\ w_status response <> 401.
Proof.
  intros Hk Hsecret Hauth H.
  assert (presented_key request = Some k) as Hpresented.
  { unfold presented_key.
    destruct Hauth as [->|[-> Habsent]]; cbn [option_map].
    - by rewrite replace_first_prefix.
    - by rewrite replace_first_absent. }
  assert (validateApiKey (presented_key request) env = true) as Hvalid.
  { rewrite Hpresented. unfold validateApiKey. rewrite Hsecret.
    destruct k as [|c k]; [congruence|]. cbn [truthy_str negb strict_eq].
    by apply jsstring_eqb_eq. }
  split; [exact Hvalid|].
  unfold fetch in H. fold (presented_key request) in H.
  destruct (jsstring_eqb (method request) (js "OPTIONS"));
    [by injection H as <- <-|].
  destruct (jsstring_eqb (pathname request) (js "/health")
            && jsstring_eqb (method request) (js "GET"))%bool;
    [by injection H as <- <-|].
  rewrite Hvalid in H. cbn [negb] in H.
  destruct (jsstring_eqb (pathname request) (js "/execute")
            && jsstring_eqb (method request) (js "POST"))%bool.
  { unfold handleExecute_json in H.
    destruct (parsed_execute request) as [| |b].
    - destruct (handleExecute_shape (execute_env env) None) as (o & _ & Hst).
      destruct (handleExecute _ _) as [r tr]. injection H as <- <-.
      simpl in *. lia.
    - by injection H as <- <-.
    - destruct (handleExecute_shape (execute_env env) (Some b))
        as (o & _ & Hst).
      destruct (handleExecute _ _) as [r tr]. injection H as <- <-.
      simpl in *. lia. }
  destruct (jsstring_eqb (pathname request) (js "/execute-batch")
            && jsstring_eqb (method request) (js "POST"))%bool.
  { unfold handleExecuteBatch_json in H.
    destruct (parsed_batch request) as [| |b].
    - destruct (handleExecuteBatch _ _ _) as [[r tr]|] eqn:Hb;
        [|discriminate].
      apply handleExecuteBatch_shape in Hb. injection H as <- <-.
      simpl. lia.
    - by injection H as <- <-.
    - destruct (handleExecuteBatch _ _ _) as [[r tr]|] eqn:Hb;
        [|discriminate].
      apply handleExecuteBatch_shape in Hb. injection H as <- <-.
      simpl. lia. }
  by injection H as <- <-.
Qed.

Lemma fetch_accepts_key_witness :
  exists response traces,
    fetch 6 (worker_env "sk_live_1")
      (request_to "POST" "/execute-batch" "sk_live_1")
    = Some (response, traces)
    /\ validateApiKey
         (presented_key (request_to "POST" "/execute-batch" "sk_live_1"))
         (worker_env "sk_live_1") = true
    /\ w_status response <> 401.
Proof.
  eexists _, _. split; [vm_compute; reflexivity|].
  eapply (fetch_accepts_key 6 (worker_env "sk_live_1")
            (request_to "POST" "/execute-batch" "sk_live_1") (js "sk_live_1")).
  - discriminate.
  - reflexivity.
  - right. split; reflexivity.
  - vm_compute. reflexivity.
Defined.

(** X19. With a valid key, [POST /execute] and [POST /execute-batch] hand
    back the status, the body and the sandbox calls of their handler when
    the handler answers; when the body is [null] the handler throws before
    any sandbox call and [fetch] itself answers 500 with the message of the
    [TypeError]. Every other request that is neither a preflight nor
    [GET /health] is answered 404 with error [Not Found] and no sandbox
    call; 404 is the answer to such unknown routes only. *)
Theorem fetch_routing (fuel : nat) (env : WorkerEnv) (request : WorkerRequest)
    (response : WorkerResponse) (traces : list (list Event)) :
  validateApiKey (presented_key request) env = true ->
  is_public request = false ->
  fetch fuel env request = Some (response, traces) ->
  (is_execute_route request = true -> json_null request = false ->
   w_status response
   = status (fst (handleExecute (execute_env env) (json_execute request)))
   /\ w_body response
      = BodyJson
          (body (fst (handleExecute (execute_env env)
                        (json_execute request))))
   /\ traces
      = [snd (handleExecute (execute_env env) (json_execute request))])
  /\ (is_execute_route request = false -> is_batch_route request = true ->
      json_null request = false ->
      exists r,
        handleExecuteBatch fuel (batch_world env) (json_batch request)
        = Some (r, traces)
        /\ w_status response = status r
        /\ w_body response = BodyJson (body r))
  /\ ((is_execute_route request || is_batch_route request)%bool = true ->
      json_null request = true ->
      w_status response = 500
      /\ w_body response
         = BodyJson (BodyExecute (bare_failure null_function_id))
      /\ traces = [])
  /\ (w_status response = 404
      <-> is_execute_route request = false
          /\ is_batch_route request = false)
  /\ (w_status response = 404 ->
      traces = []
      /\ w_body response
         = BodyJson (BodyExecute (bare_failure (js "Not Found")))).
Proof.
  intros Hvalid Hpublic H. unfold fetch in H.
  fold (presented_key request) in H. unfold is_public in Hpublic.
  destruct (jsstring_eqb (method request) (js "OPTIONS")); [discriminate|].
  simpl in Hpublic. rewrite Hpublic, Hvalid in H. cbn [negb] in H.
  fold (is_execute_route request) in H. fold (is_batch_route request) in H.
  unfold handleExecute_json, handleExecuteBatch_json, parsed_execute,
    parsed_batch in H.
  destruct (is_execute_route request).
  { destruct (json_null request).
    - injection H as <- <-. simpl.
      repeat split; try discriminate; intros; exfalso; lia.
    - assert (exists r tr,
                handleExecute (execute_env env) (json_execute request)
                = (r, tr)
                /\ Some ({| w_status := status r;
                            w_headers :=
                              headers_set_all corsHeaders handler_headers;
                            w_body := BodyJson (body r) |}, [tr])
                   = Some (response, traces)) as (r & tr & Hr & Hout).
      { destruct (json_execute request);
          destruct (handleExecute _ _) as [r tr]; eauto. }
      destruct (handleExecute_shape (execute_env env) (json_execute request))
        as (o & _ & Hst).
      rewrite Hr in *. injection Hout as <- <-. simpl in *.
      repeat split; try discriminate; intros; exfalso; lia. }
  destruct (is_batch_route request).
  { destruct (json_null request).
    - injection H as <- <-. simpl.
      repeat split; try discriminate; intros; exfalso; lia.
    - assert (exists r,
                handleExecuteBatch fuel (batch_world env) (json_batch request)
                = Some (r, traces)
                /\ response
                   = {| w_status := status r;
                        w_headers :=
                          headers_set_all corsHeaders handler_headers;
                        w_body := BodyJson (body r) |}) as (r & Hr & ->).
      { destruct (json_batch request);
          destruct (handleExecuteBatch _ _ _) as [[r tr]|];
          try discriminate; injection H as <- <-; eauto. }
      pose proof (handleExecuteBatch_shape _ _ _ _ _ Hr) as Hst. simpl.
      repeat split; try discriminate; try (intros; exfalso; lia).
      intros _ _ _. exists r. auto. }
  injection H as <- <-. simpl. repeat split; try discriminate.
Qed.

Lemma fetch_routing_witness :
  exists response traces,
    fetch 6 (worker_env "sk_live_1")
      {| method := js "POST"; pathname := js "/execute-batch";
         authorization := Some (js "Bearer sk_live_1");
         json_null := true; json_execute := None; json_batch := None |}
    = Some (response, traces)
    /\ w_status response = 500
    /\ w_body response
       = BodyJson (BodyExecute (bare_failure null_function_id))
    /\ traces = [].
Proof.
  eexists _, _. split; [vm_compute; reflexivity|].
  eapply (fetch_routing 6 (worker_env "sk_live_1")
            {| method := js "POST"; pathname := js "/execute-batch";
               authorization := Some (js "Bearer sk_live_1");
               json_null := true; json_execute := None;
               json_batch := None |}).
  - reflexivity.
  - reflexivity.
  - vm_compute. reflexivity.
  - reflexivity.
  - reflexivity.
Defined.

(** ** Rejections of the runtime *)

(** X20. A rejection of [runCode] makes the item a failure whose error is
    the message of the [Error] thrown, or [Execution failed] when something
    else was thrown, with the timing fields set and no output attached; in
    [handleExecute] the same holds for a rejection of [createCodeContext]
    as well, under status 500, and after a rejected [createCodeContext]
    no [runCode] call is made. *)
Theorem handlers_catch_rejections :
  (forall (env : Env) (functionId code functionName itemHex : jsstring)
          (timeoutSeconds : Z) (t : Thrown),
     createCodeContext
       (getSandbox env (functionId ++ js "-" ++ take 8 (randomUUID env)))
     = Resolved tt ->
     runCode
       (getSandbox env (functionId ++ js "-" ++ take 8 (randomUUID env)))
       (executionCode_item code functionName itemHex) (timeoutSeconds * 1000)
     = Rejected t ->
     fst (executeItem env functionId code functionName itemHex
            timeoutSeconds)
     = Resolved
         {| success := false; result := None;
            error := Some (message_or t (js "Execution failed"));
            stdout := None; stderr := None;
            execution_time_ms := Some (exit_now env - entry_now env);
            sandbox_id :=
              Some (functionId ++ js "-" ++ take 8 (randomUUID env));
            started_at := Some (entry_iso env);
            completed_at := Some (exit_iso env) |})
  /\ (forall (env : Env) (function_id code function_name : jsstring)
             (args kwargs : option jsstring) (tmo : option Z) (t : Thrown),
        function_id <> [] -> code <> [] -> function_name <> [] ->
        createCodeContext (getSandbox env (idFromName env function_id))
        = Rejected t ->
        handleExecute env
          (Some (single_request function_id code function_name args kwargs
                   tmo))
        = ({| status := 500;
              body := BodyExecute
                        (bare_failure
                           (message_or t (js "Execution failed"))) |},
           [EvCreateCodeContext (idFromName env function_id)]))
  /\ (forall (env : Env) (function_id code function_name : jsstring)
             (args kwargs : option jsstring) (tmo : option Z) (t : Thrown),
        function_id <> [] -> code <> [] -> function_name <> [] ->
        createCodeContext (getSandbox env (idFromName env function_id))
        = Resolved tt ->
        runCode (getSandbox env (idFromName env function_id))
          (executionCode_single code function_name (default [] args)
             (default [] kwargs))
          (or_default tmo 300 * 1000) = Rejected t ->
        fst (handleExecute env
               (Some (single_request function_id code function_name args
                        kwargs tmo)))
        = {| status := 500;
             body := BodyExecute
                       (bare_failure
                          (message_or t (js "Execution failed"))) |}).
Proof.
  split; [|split].
  - intros env functionId code functionName itemHex timeoutSeconds t
      Hctx Hrun.
    unfold executeItem. by rewrite Hctx, Hrun.
  - intros env function_id code function_name args kwargs tmo t
      Hf Hc Hn Hctx.
    unfold handleExecute, single_request.
    cbn [ExecuteRequest.function_id ExecuteRequest.code
         ExecuteRequest.function_name ExecuteRequest.args
         ExecuteRequest.kwargs ExecuteRequest.timeout].
    rewrite !truthy_nonempty by assumption.
    cbn [negb orb default from_option id]. by rewrite Hctx.
  - intros env function_id code function_name args kwargs tmo t
      Hf Hc Hn Hctx Hrun.
    unfold handleExecute, single_request.
    cbn [ExecuteRequest.function_id ExecuteRequest.code
         ExecuteRequest.function_name ExecuteRequest.args
         ExecuteRequest.kwargs ExecuteRequest.timeout].
    rewrite !truthy_nonempty by assumption.
    cbn [negb orb default from_option id]. by rewrite Hctx, Hrun.
Qed.

Lemma handlers_catch_rejections_witness :
  fst (executeItem (item_env w_mixed 4) (js "fn")
         (js "def double(x): return 2 * x") (js "double") (js "8005") 300)
  = Resolved
      {| success := false; result := None;
         error := Some (message_or (ThrownError (js "network lost"))
                          (js "Execution failed"));
         stdout := None; stderr := None;
         execution_time_ms :=
           Some (exit_now (item_env w_mixed 4) - entry_now (item_env w_mixed 4));
         sandbox_id :=
           Some (js "fn" ++ js "-"
                 ++ take 8 (randomUUID (item_env w_mixed 4)));
         started_at := Some (entry_iso (item_env w_mixed 4));
         completed_at := Some (exit_iso (item_env w_mixed 4)) |}.
Proof.
  apply (proj1 handlers_catch_rejections (item_env w_mixed 4) (js "fn")
           (js "def double(x): return 2 * x") (js "double") (js "8005") 300
           (ThrownError (js "network lost"))).
  - reflexivity.
  - reflexivity.
Defined.
